(** * Verification of the in-memory todo repository and its service layer

    Shallow embedding of [src/todo/domain/models.py],
    [src/todo/domain/errors.py], [src/todo/repository/memory_repo.py],
    [src/todo/application/services.py] and of the two front ends
    [src/todo/cli.py] and [src/todo/interactive.py].

    Modelling choices:
    - Python [Task] objects are mutable and shared by reference.  They live
      in a heap ([list Task], indexed by [loc]); the repository dict maps
      ids to locations, and [get], [add], [update] and [list_all] return
      locations, exactly as Python returns the stored objects.
    - A Python [dict] is an insertion-ordered association list.
    - Exceptions ([ValidationError] = InvalidInput, [TaskNotFoundError] =
      NotFound) are the [Err] branch of a state-and-error monad; a raise
      keeps whatever was mutated before it, as Python does.
    - [date] is a (year, month, day) triple compared as a tuple; a
      [datetime] is a UTC instant in microseconds ([Z]).
    - A Python [str] is a [string] of code points 0..255.
    - The front ends write lines to a list instead of stdout and stderr;
      the interactive shell reads its input stream from a string, one
      [readline] at a time, so an answer to a prompt is the next line of
      that string and the end of the string is end of input. *)

From Stdlib Require Import ZArith List Bool String Ascii Lia.
From Stdlib Require Import Sorting.Permutation Sorting.Sorted.
From stdpp Require Import base list.
Import ListNotations.
Open Scope Z_scope.

(* ------------------------------------------------------------------ *)
(** ** Domain model ([models.py]) *)

Record date := mkDate { year : Z; month : Z; day : Z }.

Definition datetime := Z.

Inductive Status := Open | Done.

Inductive Priority := Low | Med | High.

Record Task := mkTask {
  id : Z;
  title : string;
  status : Status;
  created_at : datetime;
  due_date : option date;
  priority : option Priority;
  tags : list string
}.

Definition status_eqb (a b : Status) : bool :=
  match a, b with
  | Open, Open | Done, Done => true
  | _, _ => false
  end.

(** Attribute assignment [task.<field> = v] on a Task value. *)
Definition set_title (v : string) (t : Task) : Task :=
  mkTask t.(id) v t.(status) t.(created_at) t.(due_date) t.(priority) t.(tags).
Definition set_status (v : Status) (t : Task) : Task :=
  mkTask t.(id) t.(title) v t.(created_at) t.(due_date) t.(priority) t.(tags).
Definition set_due_date (v : option date) (t : Task) : Task :=
  mkTask t.(id) t.(title) t.(status) t.(created_at) v t.(priority) t.(tags).
Definition set_priority (v : option Priority) (t : Task) : Task :=
  mkTask t.(id) t.(title) t.(status) t.(created_at) t.(due_date) v t.(tags).
Definition set_tags (v : list string) (t : Task) : Task :=
  mkTask t.(id) t.(title) t.(status) t.(created_at) t.(due_date) t.(priority) v.

(* ------------------------------------------------------------------ *)
(** ** Object heap and the repository state *)

Abbreviation loc := nat (only parsing).

Abbreviation heap := (list Task) (only parsing).

(** The value read through a dangling location; never reached from a
    reachable state (see [wf]). *)
Definition null_task : Task := mkTask 0 "" Open 0 None None [].

Definition read (h : heap) (l : loc) : Task := default null_task (h !! l).

(** [obj.<field> = v]: overwrite the object at [l] in place. *)
Definition write (h : heap) (l : loc) (t : Task) : heap := <[l := t]> h.

(** [MemoryTaskRepository]: [_tasks : dict[int, Task]] and [_next_id]. *)
Record World := mkWorld {
  objs : heap;
  tasks : list (Z * loc);
  next_id : Z
}.

(** [MemoryTaskRepository.__init__] *)
Definition init : World := mkWorld [] [] 1.

(** Python dict primitives on an insertion-ordered association list. *)
Fixpoint dict_get (k : Z) (d : list (Z * loc)) : option loc :=
  match d with
  | [] => None
  | (k', v) :: d' => if Z.eqb k k' then Some v else dict_get k d'
  end.

Fixpoint dict_set (k : Z) (v : loc) (d : list (Z * loc)) : list (Z * loc) :=
  match d with
  | [] => [(k, v)]
  | (k', v') :: d' =>
      if Z.eqb k k' then (k, v) :: d' else (k', v') :: dict_set k v d'
  end.

Definition dict_del (k : Z) (d : list (Z * loc)) : list (Z * loc) :=
  List.filter (fun e => negb (Z.eqb k e.1)) d.

(* ------------------------------------------------------------------ *)
(** ** Exceptions and the state-and-error monad *)

Inductive Exc :=
  | InvalidInput (message : string)   (* ValidationError *)
  | NotFound (task_id : Z).           (* TaskNotFoundError *)

Inductive Result (A : Type) := Ok (a : A) | Err (e : Exc).
Arguments Ok {A} a.
Arguments Err {A} e.

Definition M (A : Type) := World -> Result A * World.

Definition ret {A} (a : A) : M A := fun w => (Ok a, w).
Definition raise {A} (e : Exc) : M A := fun w => (Err e, w).
Definition bind {A B} (m : M A) (k : A -> M B) : M B :=
  fun w => match m w with
           | (Ok a, w') => k a w'
           | (Err e, w') => (Err e, w')
           end.

Notation "'let*' x := m 'in' k" := (bind m (fun x => k))
  (at level 200, x name, m at level 100, k at level 200).

Definition lift {A} (r : Result A) : M A :=
  match r with Ok a => ret a | Err e => raise e end.

Definition gets {A} (f : World -> A) : M A := fun w => (Ok (f w), w).
Definition modify (f : World -> World) : M unit := fun w => (Ok tt, f w).

(** Mutation of a shared Task object: [obj.<field> = v]. *)
Definition mutate (l : loc) (f : Task -> Task) : M unit :=
  modify (fun w => mkWorld (write w.(objs) l (f (read w.(objs) l)))
                           w.(tasks) w.(next_id)).

Definition when_some {A} (o : option A) (k : A -> M unit) : M unit :=
  match o with Some a => k a | None => ret tt end.

(** Allocation of a fresh object ([Task(...)]). *)
Definition alloc (t : Task) : M loc :=
  fun w => (Ok (length w.(objs)), mkWorld (w.(objs) ++ [t]) w.(tasks) w.(next_id)).

(* ------------------------------------------------------------------ *)
(** ** Repository ([memory_repo.py]) *)

(** A keyword argument whose default is the sentinel [...]:
    [NotProvided] is the sentinel, [Provided v] an explicit value
    (possibly [None]). *)
Inductive Arg (A : Type) := NotProvided | Provided (v : A).
Arguments NotProvided {A}.
Arguments Provided {A} v.

Definition when_provided {A} (o : Arg A) (k : A -> M unit) : M unit :=
  match o with Provided a => k a | NotProvided => ret tt end.

(** Python's [xs or []] for an optional list. *)
Definition or_empty (o : option (list string)) : list string :=
  match o with Some l => l | None => [] end.

(** [MemoryTaskRepository.add] *)
Definition add (title : string) (created_at : datetime) (due_date : option date)
    (priority : option Priority) (tags : option (list string)) : M loc :=
  let* nid := gets next_id in
  let* task := alloc (mkTask nid title Open created_at due_date priority
                             (or_empty tags)) in
  let* _ := modify (fun w => mkWorld w.(objs) (dict_set nid task w.(tasks))
                                     w.(next_id)) in
  let* _ := modify (fun w => mkWorld w.(objs) w.(tasks) (w.(next_id) + 1)) in
  ret task.

(** [MemoryTaskRepository.get]: returns the stored object itself. *)
Definition get (task_id : Z) : M loc :=
  let* d := gets tasks in
  match dict_get task_id d with
  | None => raise (NotFound task_id)
  | Some task => ret task
  end.

(** [MemoryTaskRepository.update] *)
Definition update (task_id : Z) (title : option string) (status : option Status)
    (due_date : Arg (option date)) (priority : Arg (option Priority))
    (tags : Arg (option (list string))) : M loc :=
  let* task := get task_id in
  let* _ := when_some title (fun v => mutate task (set_title v)) in
  let* _ := when_some status (fun v => mutate task (set_status v)) in
  let* _ := when_provided due_date (fun v => mutate task (set_due_date v)) in
  let* _ := when_provided priority (fun v => mutate task (set_priority v)) in
  let* _ := when_provided tags (fun v => mutate task (set_tags (or_empty v))) in
  ret task.

(** [MemoryTaskRepository.delete] *)
Definition delete (task_id : Z) : M unit :=
  let* d := gets tasks in
  match dict_get task_id d with
  | None => raise (NotFound task_id)
  | Some _ => modify (fun w => mkWorld w.(objs) (dict_del task_id w.(tasks))
                                       w.(next_id))
  end.

(** [done_ids = [tid for tid, task in self._tasks.items() if task.status == "done"]] *)
Definition done_ids_of (w : World) : list Z :=
  map fst (List.filter (fun e => status_eqb (read w.(objs) e.2).(status) Done)
                  w.(tasks)).

(** [MemoryTaskRepository.clear_done] *)
Definition clear_done : M Z :=
  let* done_ids := gets done_ids_of in
  let* _ := modify (fun w => mkWorld w.(objs)
                               (fold_left (fun d tid => dict_del tid d)
                                          done_ids w.(tasks))
                               w.(next_id)) in
  ret (Z.of_nat (length done_ids)).

(** Lower-casing ([str.lower]) on code points 0..255. *)
Definition lower_ascii (c : ascii) : ascii :=
  let n := nat_of_ascii c in
  if ((65 <=? n) && (n <=? 90))%nat
     || ((192 <=? n) && (n <=? 222) && negb (n =? 215))%nat
  then ascii_of_nat (n + 32) else c.

Fixpoint lower (s : string) : string :=
  match s with
  | EmptyString => EmptyString
  | String c s' => String (lower_ascii c) (lower s')
  end.

(** [t.status], under a name the [status] parameter does not shadow. *)
Definition status_of (t : Task) : Status := t.(status).

Inductive StatusFilter := FAll | FOpen | FDone.

Inductive SortField := SCreated | SDue | SPriority.

(** Python tuple comparison [a < b] on tuples of integers. *)
Fixpoint lex_ltb (a b : list Z) : bool :=
  match a, b with
  | [], [] => false
  | [], _ :: _ => true
  | _ :: _, [] => false
  | x :: a', y :: b' =>
      if x <? y then true else if y <? x then false else lex_ltb a' b'
  end.

(** [date.max] *)
Definition date_max : date := mkDate 9999 12 31.

Definition date_key (d : date) : list Z := [d.(year); d.(month); d.(day)].

(** [key=lambda t: (t.created_at, t.id)] *)
Definition created_key (t : Task) : list Z := [t.(created_at); t.(id)].

(** [due_key] *)
Definition due_key (t : Task) : list Z :=
  match t.(due_date) with
  | Some d => [0] ++ date_key d ++ [t.(id)]
  | None => [1] ++ date_key date_max ++ [t.(id)]
  end.

(** [priority_order = {"high": 0, "med": 1, "low": 2, None: 3}] *)
Definition priority_order (p : option Priority) : Z :=
  match p with
  | Some High => 0
  | Some Med => 1
  | Some Low => 2
  | None => 3
  end.

Definition priority_key (t : Task) : list Z := [priority_order t.(priority); t.(id)].

(** [sorted(xs, key=k)]: a stable sort (insertion sort; every stable sort
    returns the same list). *)
Fixpoint insert_by (k : loc -> list Z) (x : loc) (ys : list loc) : list loc :=
  match ys with
  | [] => [x]
  | y :: ys' => if lex_ltb (k y) (k x) then y :: insert_by k x ys' else x :: ys
  end.

Definition sorted_by (k : loc -> list Z) (xs : list loc) : list loc :=
  fold_right (insert_by k) [] xs.

(** [MemoryTaskRepository._sort_tasks] *)
Definition sort_tasks (h : heap) (ts : list loc) (sort : SortField) : list loc :=
  match sort with
  | SCreated => sorted_by (fun l => created_key (read h l)) ts
  | SDue => sorted_by (fun l => due_key (read h l)) ts
  | SPriority => sorted_by (fun l => priority_key (read h l)) ts
  end.

Definition has_tag (tag_lower : string) (t : Task) : bool :=
  existsb (fun tg => String.eqb (lower tg) tag_lower) t.(tags).

(** [MemoryTaskRepository.list_all] *)
Definition list_all (status : StatusFilter) (tag : option string)
    (sort : SortField) : M (list loc) :=
  fun w =>
    let h := w.(objs) in
    let ts := map snd w.(tasks) in
    let ts := match status with
              | FAll => ts
              | FOpen => List.filter (fun l => status_eqb (status_of (read h l)) Open) ts
              | FDone => List.filter (fun l => status_eqb (status_of (read h l)) Done) ts
              end in
    let ts := match tag with
              | None => ts
              | Some tg => List.filter (fun l => has_tag (lower tg) (read h l)) ts
              end in
    (Ok (sort_tasks h ts sort), w).

(* ------------------------------------------------------------------ *)
(** ** Validation ([models.py]) *)

(** [str.isspace] on code points 0..255. *)
Definition is_space (c : ascii) : bool :=
  existsb (Nat.eqb (nat_of_ascii c)) [9; 10; 11; 12; 13; 28; 29; 30; 31; 32; 133; 160]%nat.

Fixpoint lstrip (s : string) : string :=
  match s with
  | EmptyString => EmptyString
  | String c s' => if is_space c then lstrip s' else s
  end.

Fixpoint rstrip (s : string) : string :=
  match s with
  | EmptyString => EmptyString
  | String c s' =>
      match rstrip s' with
      | EmptyString => if is_space c then EmptyString else String c EmptyString
      | r => String c r
      end
  end.

(** [str.strip()] *)
Definition strip (s : string) : string := rstrip (lstrip s).

(** [validate_title] *)
Definition validate_title (title : string) : Result string :=
  let stripped := strip title in
  match stripped with
  | EmptyString => Err (InvalidInput "Title cannot be empty")
  | _ => Ok stripped
  end.

(** *** [date.fromisoformat] (CPython's C implementation, 3.11 and later)

    The argument is read as its UTF-8 bytes, with a NUL terminator. *)
Definition utf8_bytes (s : string) : list Z :=
  flat_map (fun c => let n := Z.of_nat (nat_of_ascii c) in
                     if n <? 128 then [n] else [192 + n / 64; 128 + n mod 64])
           (list_ascii_of_string s).

Definition byte_at (bs : list Z) (p : nat) : Z := nth p bs 0.

(** [parse_digits]: [Some (p', value)] or [None] on a non-digit. *)
Fixpoint parse_digits (bs : list Z) (p : nat) (num_digits : nat) (var : Z)
  : option (nat * Z) :=
  match num_digits with
  | O => Some (p, var)
  | S k =>
      let tmp := byte_at bs p - 48 in
      if (0 <=? tmp) && (tmp <=? 9) then parse_digits bs (S p) k (var * 10 + tmp)
      else None
  end.

Definition MINYEAR : Z := 1.
Definition MAXYEAR : Z := 9999.

Definition is_leap (y : Z) : bool :=
  (Z.rem y 4 =? 0) && (negb (Z.rem y 100 =? 0) || (Z.rem y 400 =? 0)).

Definition days_in_month (y m : Z) : Z :=
  if (m =? 2) && is_leap y then 29
  else nth (Z.to_nat m) [0; 31; 28; 31; 30; 31; 30; 31; 31; 30; 31; 30; 31] 0.

Definition days_before_month_tbl (m : Z) : Z :=
  nth (Z.to_nat m) [0; 0; 31; 59; 90; 120; 151; 181; 212; 243; 273; 304; 334] 0.

Definition days_before_year (year : Z) : Z :=
  let y := year - 1 in
  y * 365 + Z.quot y 4 - Z.quot y 100 + Z.quot y 400.

Definition days_before_month (year month : Z) : Z :=
  days_before_month_tbl month + (if (2 <? month) && is_leap year then 1 else 0).

Definition ymd_to_ord (y m d : Z) : Z :=
  days_before_year y + days_before_month y m + d.

Definition DI400Y : Z := 146097.
Definition DI100Y : Z := 36524.
Definition DI4Y : Z := 1461.

Definition ord_to_ymd (ordinal : Z) : Z * Z * Z :=
  let ordinal := ordinal - 1 in
  let n400 := Z.quot ordinal DI400Y in
  let n := Z.rem ordinal DI400Y in
  let n100 := Z.quot n DI100Y in
  let n := Z.rem n DI100Y in
  let n4 := Z.quot n DI4Y in
  let n := Z.rem n DI4Y in
  let n1 := Z.quot n 365 in
  let n := Z.rem n 365 in
  let year := n400 * 400 + 1 + n100 * 100 + n4 * 4 + n1 in
  if (n1 =? 4) || (n100 =? 4) then (year - 1, 12, 31)
  else
    let leapyear := (n1 =? 3) && (negb (n4 =? 24) || (n100 =? 3)) in
    let month := Z.shiftr (n + 50) 5 in
    let preceding := days_before_month_tbl month
                     + (if (2 <? month) && leapyear then 1 else 0) in
    let '(month, preceding) :=
      if n <? preceding
      then (month - 1, preceding - days_in_month year (month - 1))
      else (month, preceding) in
    (year, month, n - preceding + 1).

Definition iso_week1_monday (year : Z) : Z :=
  let first_day := ymd_to_ord year 1 1 in
  let first_weekday := Z.rem (first_day + 6) 7 in
  let week1_monday := first_day - first_weekday in
  if 3 <? first_weekday then week1_monday + 7 else week1_monday.

Definition iso_to_ymd (iso_year iso_week iso_day : Z) : option (Z * Z * Z) :=
  if (iso_year <? MINYEAR) || (MAXYEAR <? iso_year) then None
  else
    let week_ok :=
      if (iso_week <=? 0) || (53 <=? iso_week) then
        (iso_week =? 53) &&
        (let first_weekday := Z.rem (ymd_to_ord iso_year 1 1) 7 in
         (first_weekday =? 4) || ((first_weekday =? 3) && is_leap iso_year))
      else true in
    if negb week_ok then None
    else if (iso_day <=? 0) || (8 <=? iso_day) then None
    else
      let day_1 := iso_week1_monday iso_year in
      let day_offset := (iso_week - 1) * 7 + iso_day - 1 in
      Some (ord_to_ymd (day_1 + day_offset)).

(** [parse_isoformat_date]; a negative return code is [None]. *)
Definition parse_isoformat_date (bs : list Z) (len : nat) : option (Z * Z * Z) :=
  match parse_digits bs 0 4 0 with
  | None => None
  | Some (p, year) =>
      let uses_separator := byte_at bs p =? 45 in
      let p := if uses_separator then S p else p in
      if byte_at bs p =? 87 then
        match parse_digits bs (S p) 2 0 with
        | None => None
        | Some (p, iso_week) =>
            let iso_day :=
              if (p <? len)%nat then
                if uses_separator && negb (byte_at bs p =? 45) then None
                else
                  let p := if uses_separator then S p else p in
                  option_map snd (parse_digits bs p 1 0)
              else Some 1 in
            match iso_day with
            | None => None
            | Some iso_day => iso_to_ymd year iso_week iso_day
            end
        end
      else
        match parse_digits bs p 2 0 with
        | None => None
        | Some (p, month) =>
            if uses_separator && negb (byte_at bs p =? 45) then None
            else
              let p := if uses_separator then S p else p in
              match parse_digits bs p 2 0 with
              | None => None
              | Some (_, day) => Some (year, month, day)
              end
        end
  end.

(** [new_date]'s argument check ([check_date_args]). *)
Definition check_date_args (y m d : Z) : bool :=
  (MINYEAR <=? y) && (y <=? MAXYEAR) && (1 <=? m) && (m <=? 12)
  && (1 <=? d) && (d <=? days_in_month y m).

(** [date.fromisoformat]; [None] is a raised [ValueError]. *)
Definition fromisoformat (s : string) : option date :=
  let bs := utf8_bytes s in
  let len := length bs in
  if (len =? 7)%nat || (len =? 8)%nat || (len =? 10)%nat then
    match parse_isoformat_date bs len with
    | Some (y, m, d) => if check_date_args y m d then Some (mkDate y m d) else None
    | None => None
    end
  else None.

(** [parse_due_date] *)
Definition parse_due_date (due_str : option string) : Result (option date) :=
  match due_str with
  | None => Ok None
  | Some s =>
      match fromisoformat s with
      | Some d => Ok (Some d)
      | None => Err (InvalidInput ("Invalid date format: " ++ s ++ ". Expected YYYY-MM-DD"))
      end
  end.

(** [validate_priority] *)
Definition validate_priority (priority_str : option string) : Result (option Priority) :=
  match priority_str with
  | None => Ok None
  | Some s =>
      if String.eqb s "low" then Ok (Some Low)
      else if String.eqb s "med" then Ok (Some Med)
      else if String.eqb s "high" then Ok (Some High)
      else Err (InvalidInput ("Invalid priority: " ++ s ++ ". Must be one of: low, med, high"))
  end.

(** [str.split(",")] *)
Fixpoint split_comma (s : string) : list string :=
  match s with
  | EmptyString => [EmptyString]
  | String c s' =>
      match split_comma s' with
      | [] => []
      | piece :: rest =>
          if Ascii.eqb c ","%char then EmptyString :: piece :: rest
          else String c piece :: rest
      end
  end.

(** [parse_tags] *)
Definition parse_tags (tags_str : option string) : list string :=
  match tags_str with
  | None => []
  | Some s =>
      List.filter (fun t => negb (String.eqb t EmptyString)) (map strip (split_comma s))
  end.

(* ------------------------------------------------------------------ *)
(** ** Services ([services.py]) *)

(** [TodoService.add_task]; [now] is the value [utc_now()] returns. *)
Definition add_task (now : datetime) (title : string) (due : option string)
    (priority : option string) (tags : option string) : M loc :=
  let* validated_title := lift (validate_title title) in
  let* due_date := lift (parse_due_date due) in
  let* validated_priority := lift (validate_priority priority) in
  let parsed_tags := parse_tags tags in
  add validated_title now due_date validated_priority (Some parsed_tags).

(** [TodoService.get_task] *)
Definition get_task (task_id : Z) : M loc := get task_id.

(** [TodoService.list_tasks] *)
Definition list_tasks (status : StatusFilter) (tag : option string)
    (sort : SortField) : M (list loc) :=
  list_all status tag sort.

(** [TodoService.mark_done] *)
Definition mark_done (task_id : Z) : M loc :=
  update task_id None (Some Done) NotProvided NotProvided NotProvided.

(** [TodoService.reopen_task] *)
Definition reopen_task (task_id : Z) : M loc :=
  update task_id None (Some Open) NotProvided NotProvided NotProvided.

(** [validated = f(x) if x is not ... else ...] *)
Definition lift_arg {A B} (f : A -> Result B) (x : Arg A) : M (Arg B) :=
  match x with
  | NotProvided => ret NotProvided
  | Provided v => let* r := lift (f v) in ret (Provided r)
  end.

(** [TodoService.update_task] *)
Definition update_task (task_id : Z) (title : option string)
    (due : Arg (option string)) (priority : Arg (option string))
    (tags : Arg (option string)) : M loc :=
  let* validated_title :=
    match title with
    | Some t => let* v := lift (validate_title t) in ret (Some v)
    | None => ret None
    end in
  let* due_date := lift_arg parse_due_date due in
  let* validated_priority := lift_arg validate_priority priority in
  let* parsed_tags := lift_arg (fun t => Ok (Some (parse_tags t))) tags in
  update task_id validated_title None due_date validated_priority parsed_tags.

(** [TodoService.delete_task] *)
Definition delete_task (task_id : Z) : M unit := delete task_id.

(** [TodoService.clear_done] *)
Definition service_clear_done : M Z := clear_done.

(* ------------------------------------------------------------------ *)
(** ** Callers and traces *)

(** A caller's attribute assignment on a Task object it holds. *)
Definition caller_mutate (l : loc) (f : Task -> Task) : M unit := mutate l f.

(** Repository calls a caller can make. *)
Inductive Op :=
  | OpAdd (title : string) (created_at : datetime) (due_date : option date)
          (priority : option Priority) (tags : option (list string))
  | OpGet (task_id : Z)
  | OpUpdate (task_id : Z) (title : option string) (status : option Status)
             (due_date : Arg (option date)) (priority : Arg (option Priority))
             (tags : Arg (option (list string)))
  | OpDelete (task_id : Z)
  | OpClearDone
  | OpList (status : StatusFilter) (tag : option string) (sort : SortField).

(** Runs one call; the result is the id of the created task for [add]. *)
Definition run_op (o : Op) (w : World) : option (Result Z) * World :=
  match o with
  | OpAdd t c d p g =>
      let '(r, w') := add t c d p g w in
      (Some (match r with Ok l => Ok (read w'.(objs) l).(id) | Err e => Err e end), w')
  | OpGet k => (None, (get k w).2)
  | OpUpdate k t s d p g => (None, (update k t s d p g w).2)
  | OpDelete k => (None, (delete k w).2)
  | OpClearDone => (None, (clear_done w).2)
  | OpList s t o => (None, (list_all s t o w).2)
  end.

(** Runs a sequence of calls (an exception is caught by the caller and the
    next call proceeds); returns the ids the [add] calls assigned. *)
Fixpoint run_ops (os : list Op) (w : World) : list Z * World :=
  match os with
  | [] => ([], w)
  | o :: os' =>
      let '(r, w1) := run_op o w in
      let '(ids, w2) := run_ops os' w1 in
      (match r with Some (Ok i) => i :: ids | _ => ids end, w2)
  end.

Fixpoint count_adds (os : list Op) : nat :=
  match os with
  | [] => O
  | OpAdd _ _ _ _ _ :: os' => S (count_adds os')
  | _ :: os' => count_adds os'
  end.

(** Reachable repository states: [__init__] followed by any calls. *)
Inductive reachable : World -> Prop :=
  | reachable_init : reachable init
  | reachable_step w o : reachable w -> reachable (run_op o w).2.

(** Well-formedness of a repository state. *)
Definition wf (w : World) : Prop :=
  1 <= w.(next_id) /\
  List.NoDup (map fst w.(tasks)) /\
  forall k l, In (k, l) w.(tasks) ->
    (read w.(objs) l).(id) = k /\ 1 <= k /\ k < w.(next_id)
    /\ (l < length w.(objs))%nat.

(* ------------------------------------------------------------------ *)
(** ** Error messages ([errors.py]) *)

(** The ASCII digit for [0 <= n <= 9]. *)
Definition zdigit (n : Z) : ascii := ascii_of_nat (Z.to_nat (48 + n)).

(** Decimal digits of [n >= 0], most significant first, in front of [acc];
    [fuel] bounds the number of digits. *)
Fixpoint dec_digits (fuel : nat) (n : Z) (acc : string) : string :=
  match fuel with
  | O => acc
  | S f =>
      let acc' := String (zdigit (n mod 10)) acc in
      if n <? 10 then acc' else dec_digits f (n / 10) acc'
  end.

(** [str(i)] for a Python [int] (a number of at most 4300 digits, the
    interpreter's conversion limit; ids stay far below it). *)
Definition str_int (i : Z) : string :=
  let digits := dec_digits (S (Z.to_nat (Z.log2 (Z.abs i)))) (Z.abs i) EmptyString in
  if i <? 0 then String "-" digits else digits.

(** [e.message] of [ValidationError] and [TaskNotFoundError] *)
Definition exc_message (e : Exc) : string :=
  match e with
  | InvalidInput message => message
  | NotFound task_id => "Task with id " ++ str_int task_id ++ " not found"
  end.

(* ------------------------------------------------------------------ *)
(** ** Command-line interface ([cli.py]) *)

Definition EXIT_SUCCESS : Z := 0.
Definition EXIT_VALIDATION_ERROR : Z := 2.
Definition EXIT_NOT_FOUND : Z := 3.

(** ["\n"] *)
Definition nl : string := String "010" EmptyString.

(** [sep.join(xs)] *)
Fixpoint join (sep : string) (xs : list string) : string :=
  match xs with
  | [] => EmptyString
  | [x] => x
  | x :: xs' => x ++ sep ++ join sep xs'
  end.

(** [c * n] for a one-character string [c] *)
Fixpoint repeat_char (n : nat) (c : ascii) : string :=
  match n with
  | O => EmptyString
  | S n' => String c (repeat_char n' c)
  end.

(** [f"{s:>w}"] and [f"{s:<w}"]: pad with spaces to width [w]. *)
Definition rjust (w : nat) (s : string) : string :=
  repeat_char (w - String.length s) " " ++ s.
Definition ljust (w : nat) (s : string) : string :=
  s ++ repeat_char (w - String.length s) " ".

(** [f"{n:0w}"] for [n >= 0], given [str(n)] *)
Definition zfill (w : nat) (s : string) : string :=
  repeat_char (w - String.length s) "0" ++ s.

(** [str(d)] for a [date]: [YYYY-MM-DD] ([date.isoformat]) *)
Definition str_date (d : date) : string :=
  zfill 4 (str_int d.(year)) ++ "-" ++ zfill 2 (str_int d.(month)) ++ "-"
  ++ zfill 2 (str_int d.(day)).

(** [task.priority.upper()] *)
Definition priority_upper (p : Priority) : string :=
  match p with Low => "LOW" | Med => "MED" | High => "HIGH" end.

(** [format_task_line] *)
Definition format_task_line (task : Task) : string :=
  let st : string := if status_eqb task.(status) Done then "[x]"%string else "[ ]"%string in
  let pri : string := match task.(priority) with Some p => priority_upper p | None => "-"%string end in
  let due : string := match task.(due_date) with Some d => str_date d | None => "-"%string end in
  let tgs : string := match task.(tags) with [] => "-"%string | ts => join "," ts end in
  rjust 3 (str_int task.(id)) ++ " " ++ st ++ " " ++ ljust 4 pri ++ " "
  ++ ljust 10 due ++ " " ++ task.(title) ++ " [" ++ tgs ++ "]".

(** [format_task_table] *)
Definition format_task_table (tasks : list Task) : string :=
  match tasks with
  | [] => "No tasks found."
  | _ =>
      let header := (rjust 3 "ID" ++ " " ++ ljust 3 "STS" ++ " " ++ ljust 4 "PRI" ++ " "
                     ++ ljust 10 "DUE" ++ " " ++ ljust 30 "TITLE" ++ " TAGS")%string in
      let separator : string := repeat_char 70 "-" in
      join nl (header :: separator :: map format_task_line tasks)
  end.

(** [t.title], under a name a [title] parameter does not shadow. *)
Definition title_of (t : Task) : string := t.(title).

(** The task object at a location, as the command handlers read it. *)
Definition obj (l : loc) : M Task := gets (fun w => read w.(objs) l).

(** [cmd_add]: the line it prints. *)
Definition cmd_add (now : datetime) (title : string) (due priority tag : option string)
    : M string :=
  let* task := add_task now title due priority tag in
  let* t := obj task in
  ret ("Added task " ++ str_int t.(id) ++ ": " ++ title_of t)%string.

(** [cmd_list] *)
Definition cmd_list (status : StatusFilter) (tag : option string) (sort : SortField)
    : M string :=
  let* tasks := list_tasks status tag sort in
  let* h := gets objs in
  ret (format_task_table (map (read h) tasks)).

(** [cmd_done] *)
Definition cmd_done (task_id : Z) : M string :=
  let* task := mark_done task_id in
  let* t := obj task in
  ret ("Marked task " ++ str_int t.(id) ++ " as done: " ++ t.(title))%string.

(** [cmd_reopen] *)
Definition cmd_reopen (task_id : Z) : M string :=
  let* task := reopen_task task_id in
  let* t := obj task in
  ret ("Reopened task " ++ str_int t.(id) ++ ": " ++ t.(title))%string.

(** [x if x is not None else ...]: an option argparse left unset becomes
    the sentinel. *)
Definition cli_arg (o : option string) : Arg (option string) :=
  match o with Some v => Provided (Some v) | None => NotProvided end.

(** [cmd_update] *)
Definition cmd_update (task_id : Z) (title due priority tag : option string) : M string :=
  let* task := update_task task_id title (cli_arg due) (cli_arg priority) (cli_arg tag) in
  let* t := obj task in
  ret ("Updated task " ++ str_int t.(id) ++ ": " ++ title_of t)%string.

(** [cmd_delete] *)
Definition cmd_delete (task_id : Z) : M string :=
  let* _ := delete_task task_id in
  ret ("Deleted task " ++ str_int task_id)%string.

(** [cmd_clear_done] *)
Definition cmd_clear_done : M string :=
  let* count := service_clear_done in
  ret ("Cleared " ++ str_int count ++ " completed task(s)")%string.

(** The namespace [parse_args] builds for a task subcommand: [add],
    [list], [done], [reopen], [update], [delete] or [clear-done]. *)
Inductive TaskCommand :=
  | CmdAdd (title : string) (due priority tag : option string)
  | CmdList (status : StatusFilter) (tag : option string) (sort : SortField)
  | CmdDone (task_id : Z)
  | CmdReopen (task_id : Z)
  | CmdUpdate (task_id : Z) (title due priority tag : option string)
  | CmdDelete (task_id : Z)
  | CmdClearDone.

(** Every subcommand of [create_parser]: a task subcommand, or [shell] and
    its alias [menu], both [set_defaults(func=cmd_shell)]. *)
Inductive Command :=
  | CmdTask (c : TaskCommand)
  | CmdShell.

(** [args.func(args)] for a task subcommand. *)
Definition run_command (now : datetime) (c : TaskCommand) : M string :=
  match c with
  | CmdAdd t d p g => cmd_add now t d p g
  | CmdList s g o => cmd_list s g o
  | CmdDone k => cmd_done k
  | CmdReopen k => cmd_reopen k
  | CmdUpdate k t d p g => cmd_update k t d p g
  | CmdDelete k => cmd_delete k
  | CmdClearDone => cmd_clear_done
  end.

(** What [main] does: it returns an exit code after printing the lines
    [out] on stdout and [err] on stderr, the global service being left in
    state [w]; or it returns what [run_shell()] returns.  The interactive
    session of [run_shell] works on a [TodoService()] of its own and on
    [sys.stdin]; it is not modelled as a whole here (its commands are, in
    the section on [interactive.py]), and the global service keeps its
    state [w]. *)
Inductive MainResult :=
  | Exit (code : Z) (out err : list string) (w : World)
  | RunShell (w : World).

(** [main] from [parse_args] on. *)
Definition main (now : datetime) (c : Command) (w : World) : MainResult :=
  match c with
  | CmdShell => RunShell w
  | CmdTask c =>
      match run_command now c w with
      | (Ok out, w') => Exit EXIT_SUCCESS [out] [] w'
      | (Err (InvalidInput _ as e), w') =>
          Exit EXIT_VALIDATION_ERROR [] [("Error: " ++ exc_message e)%string] w'
      | (Err (NotFound _ as e), w') =>
          Exit EXIT_NOT_FOUND [] [("Error: " ++ exc_message e)%string] w'
      end
  end.

(* ------------------------------------------------------------------ *)
(** ** Interactive shell ([interactive.py]) *)

(** [s[n:]] *)
Definition drop_str (n : nat) (s : string) : string :=
  substring n (String.length s - n) s.

(** A [dict[str, str]]: insertion-ordered association list. *)
Fixpoint sdict_get (k : string) (d : list (string * string)) : option string :=
  match d with
  | [] => None
  | (k', v) :: d' => if String.eqb k k' then Some v else sdict_get k d'
  end.

Fixpoint sdict_set (k v : string) (d : list (string * string)) : list (string * string) :=
  match d with
  | [] => [(k, v)]
  | (k', v') :: d' =>
      if String.eqb k k' then (k, v) :: d' else (k', v') :: sdict_set k v d'
  end.

(** [k in d] *)
Definition sdict_has (k : string) (d : list (string * string)) : bool :=
  match sdict_get k d with Some _ => true | None => false end.

(** The [while i < len(args)] loop of [_parse_options], from position [i]
    on ([args] is the suffix from [i]). *)
Fixpoint parse_options_loop (args : list string) (opts : list (string * string))
    : list (string * string) :=
  match args with
  | [] => opts
  | a :: rest =>
      if String.prefix "--" a then
        let key := drop_str 2 a in
        match rest with
        | v :: rest' =>
            if negb (String.prefix "-" v)
            then parse_options_loop rest' (sdict_set key v opts)
            else parse_options_loop rest (sdict_set key "" opts)
        | [] => parse_options_loop rest (sdict_set key "" opts)
        end
      else if String.prefix "-" a && (String.length a =? 2)%nat then
        parse_options_loop rest (sdict_set (drop_str 1 a) "" opts)
      else parse_options_loop rest opts
  end.

(** [InteractiveShell._parse_options] *)
Definition parse_options (args : list string) : list (string * string) :=
  parse_options_loop args [].

(** [InteractiveShell._get_non_option_args] *)
Fixpoint get_non_option_args (args : list string) : list string :=
  match args with
  | [] => []
  | a :: rest =>
      if String.prefix "--" a then
        match rest with
        | v :: rest' =>
            if negb (String.prefix "-" v) then get_non_option_args rest'
            else get_non_option_args rest
        | [] => get_non_option_args rest
        end
      else if String.prefix "-" a && (String.length a =? 2)%nat then
        get_non_option_args rest
      else a :: get_non_option_args rest
  end.

(** *** [int(s)] for a [str] (CPython's [PyLong_FromUnicodeObject], base 10) *)

Definition is_digit (c : ascii) : bool :=
  ((48 <=? nat_of_ascii c) && (nat_of_ascii c <=? 57))%nat.

Definition digit_val (c : ascii) : Z := Z.of_nat (nat_of_ascii c) - 48.

(** The scan over digits and underscores: the value, the number of digits,
    the last character scanned ([prev], initially NUL) and the rest;
    [None] on a doubled underscore. *)
Fixpoint scan_digits (s : string) (acc : Z) (digits : nat) (prev : ascii)
    : option (Z * nat * ascii * string) :=
  match s with
  | EmptyString => Some (acc, digits, prev, s)
  | String c s' =>
      if is_digit c then scan_digits s' (10 * acc + digit_val c) (S digits) c
      else if Ascii.eqb c "_" then
        if Ascii.eqb prev "_" then None else scan_digits s' acc digits c
      else Some (acc, digits, prev, s)
  end.

(** [sys.get_int_max_str_digits()] *)
Definition max_str_digits : nat := 4300.

(** [int(s)]: leading whitespace, an optional sign, digits with single
    underscores between them, trailing whitespace ([None] is ValueError). *)
Definition int_of_str (s : string) : option Z :=
  let s1 := lstrip s in
  let '(sign, s2) :=
    match s1 with
    | String c r =>
        if Ascii.eqb c "+" then (1, r)
        else if Ascii.eqb c "-" then (-1, r)
        else (1, s1)
    | EmptyString => (1, s1)
    end in
  match s2 with
  | String c _ =>
      if Ascii.eqb c "_" then None
      else
        match scan_digits s2 0 O "000" with
        | Some (v, digits, prev, rest) =>
            if Ascii.eqb prev "_" || (digits =? 0)%nat
               || (max_str_digits <? digits)%nat
            then None
            else if String.eqb (lstrip rest) "" then Some (sign * v) else None
        | None => None
        end
  | EmptyString => None
  end.

(** The shell's state: the service's repository, the unread input of
    [input_stream] and the lines printed on [output_stream]. *)
Record Shell := mkShell {
  repo : World;
  input : string;
  output : list string
}.

(** What a handler can raise: a service exception or [PromptCancelled]. *)
Inductive ShellExc := ServiceError (e : Exc) | PromptCancelled.

Inductive SResult (A : Type) := SOk (a : A) | SErr (e : ShellExc).
Arguments SOk {A} a.
Arguments SErr {A} e.

Definition SM (A : Type) := Shell -> SResult A * Shell.

Definition sret {A} (a : A) : SM A := fun s => (SOk a, s).
Definition sraise {A} (e : ShellExc) : SM A := fun s => (SErr e, s).
Definition sbind {A B} (m : SM A) (k : A -> SM B) : SM B :=
  fun s => match m s with
           | (SOk a, s') => k a s'
           | (SErr e, s') => (SErr e, s')
           end.

Notation "'let!' x := m 'in' k" := (sbind m (fun x => k))
  (at level 200, x name, m at level 100, k at level 200).

(** A call on [self.service]. *)
Definition service {A} (m : M A) : SM A :=
  fun s => let '(r, w') := m s.(repo) in
           (match r with Ok a => SOk a | Err e => SErr (ServiceError e) end,
            mkShell w' s.(input) s.(output)).

(** [self.print(message)] *)
Definition sprint (message : string) : SM unit :=
  fun s => (SOk tt, mkShell s.(repo) s.(input) (s.(output) ++ [message])).

(** [readline()]: the input up to and including the next newline, [""] at
    the end of the input. *)
Fixpoint split_line (s : string) : string * string :=
  match s with
  | EmptyString => (EmptyString, EmptyString)
  | String c s' =>
      if Ascii.eqb c "010" then (String c EmptyString, s')
      else let '(l, r) := split_line s' in (String c l, r)
  end.

Definition readline : SM string :=
  fun s => let '(l, r) := split_line s.(input) in
           (SOk l, mkShell s.(repo) r s.(output)).

(** [line.rstrip("\n")] *)
Fixpoint rstrip_nl (s : string) : string :=
  match s with
  | EmptyString => EmptyString
  | String c s' =>
      match rstrip_nl s' with
      | EmptyString => if Ascii.eqb c "010" then EmptyString else String c EmptyString
      | r => String c r
      end
  end.

(** [InteractiveShell.prompt], reading from [input_stream]. *)
Definition prompt (message : string) : SM string :=
  let! _ := sprint message in
  let! line := readline in
  if String.eqb line "" then sraise PromptCancelled else sret (rstrip_nl line).

(** [InteractiveShell.confirm] *)
Definition confirm (message : string) : SM bool :=
  fun s =>
    match prompt (message ++ " [y/N]: ") s with
    | (SOk response, s') =>
        let r := lower (strip response) in
        (SOk (String.eqb r "y" || String.eqb r "yes"), s')
    | (SErr PromptCancelled, s') => (SOk false, s')
    | (SErr e, s') => (SErr e, s')
    end.

(** [InteractiveShell._parse_id] *)
Definition parse_id (args : list string) : SM (option Z) :=
  match args with
  | [] => let! _ := sprint "Error: Task ID is required" in sret None
  | a :: _ =>
      match int_of_str a with
      | Some n => sret (Some n)
      | None => let! _ := sprint ("Error: '" ++ a ++ "' is not a valid task ID") in
                sret None
      end
  end.

(** The double-quote character. *)
Definition dq : string := String (ascii_of_nat 34) EmptyString.

(** [InteractiveShell.cmd_delete] *)
Definition shell_cmd_delete (args : list string) : SM unit :=
  let! task_id := parse_id args in
  match task_id with
  | None => sret tt
  | Some task_id =>
      let opts := parse_options (tl args) in
      let force := sdict_has "f" opts || sdict_has "force" opts in
      let! task := service (get_task task_id) in
      let! t := service (obj task) in
      let! ok := if force then sret true
                 else confirm ("Delete task " ++ str_int task_id ++ " " ++ dq
                               ++ t.(title) ++ dq ++ "?") in
      if negb ok then sprint "Cancelled."
      else let! _ := service (delete_task task_id) in
           sprint ("Deleted task " ++ str_int task_id)
  end.

(** [InteractiveShell.cmd_clear] *)
Definition shell_cmd_clear (args : list string) : SM unit :=
  let opts := parse_options args in
  let force := sdict_has "f" opts || sdict_has "force" opts in
  let! done_tasks := service (list_tasks FDone None SCreated) in
  let count := Z.of_nat (length done_tasks) in
  if count =? 0 then sprint "No completed tasks to clear."
  else
    let! ok := if force then sret true
               else confirm ("Clear " ++ str_int count ++ " completed task(s)?") in
    if negb ok then sprint "Cancelled."
    else let! cleared := service service_clear_done in
         sprint ("Cleared " ++ str_int cleared ++ " completed task(s)").

(* ------------------------------------------------------------------ *)
(** ** Auxiliary definitions for the statements *)

Definition opt_set {A} (o : option A) (f : A -> Task -> Task) : Task -> Task :=
  match o with Some a => f a | None => fun t => t end.

Definition arg_set {A} (o : Arg A) (f : A -> Task -> Task) : Task -> Task :=
  match o with Provided a => f a | NotProvided => fun t => t end.

(** The combined effect of [update]'s field assignments on the object. *)
Definition update_fields (title : option string) (status : option Status)
    (due_date : Arg (option date)) (priority : Arg (option Priority))
    (tags : Arg (option (list string))) (t : Task) : Task :=
  arg_set tags (fun v => set_tags (or_empty v))
    (arg_set priority set_priority
      (arg_set due_date set_due_date
        (opt_set status set_status
          (opt_set title set_title t)))).

(** A call that raises leaves the state as it found it. *)
Definition unchanged_on_error {A} (r : Result A * World) (w : World) : Prop :=
  match r.1 with Err _ => r.2 = w | Ok _ => True end.

(** The order [sorted] leaves its output in: no later key is smaller. *)
Definition key_le (k : loc -> list Z) (a b : loc) : Prop := lex_ltb (k b) (k a) = false.

(** The orders the spec states for [sort=due] and [sort=priority]. *)
Definition date_before (d1 d2 : date) : Prop :=
  d1.(year) < d2.(year) \/
  (d1.(year) = d2.(year) /\ (d1.(month) < d2.(month) \/
                             (d1.(month) = d2.(month) /\ d1.(day) < d2.(day)))).

(** [a] may precede [b] in a due-date listing: dated before undated, dated
    ascending by date then id, undated ascending by id. *)
Definition due_before (a b : Task) : Prop :=
  match a.(due_date), b.(due_date) with
  | Some d1, Some d2 => date_before d1 d2 \/ (d1 = d2 /\ a.(id) <= b.(id))
  | Some _, None => True
  | None, Some _ => False
  | None, None => a.(id) <= b.(id)
  end.

(** [p] comes no later than [q] in: high, med, low, no priority. *)
Definition priority_no_later (p q : option Priority) : Prop :=
  match p, q with
  | Some High, _ => True
  | Some Med, Some High => False
  | Some Med, _ => True
  | Some Low, (Some Low | None) => True
  | Some Low, _ => False
  | None, None => True
  | None, _ => False
  end.

(** [a] may precede [b] in a priority listing. *)
Definition priority_before (a b : Task) : Prop :=
  priority_no_later a.(priority) b.(priority) /\
  (a.(priority) = b.(priority) -> a.(id) <= b.(id)).

(** The text [YYYY-MM-DD] with the given eight digits. *)
Definition iso_date_text (y1 y2 y3 y4 m1 m2 d1 d2 : Z) : string :=
  String (zdigit y1) (String (zdigit y2) (String (zdigit y3) (String (zdigit y4)
  (String "-" (String (zdigit m1) (String (zdigit m2)
  (String "-" (String (zdigit d1) (String (zdigit d2) EmptyString))))))))).

(** Real dates of the proleptic Gregorian calendar, years 1 to 9999. *)
Definition gregorian_leap (y : Z) : bool :=
  (y mod 4 =? 0) && (negb (y mod 100 =? 0) || (y mod 400 =? 0)).

Definition month_length (y m : Z) : Z :=
  if m =? 2 then (if gregorian_leap y then 29 else 28)
  else if (m =? 4) || (m =? 6) || (m =? 9) || (m =? 11) then 30
  else 31.

Definition real_date (y m d : Z) : bool :=
  (1 <=? y) && (y <=? 9999) && (1 <=? m) && (m <=? 12)
  && (1 <=? d) && (d <=? month_length y m).

(** The accepted spelling of each priority ([Priority = Literal[...]]). *)
Definition priority_name (p : Priority) : string :=
  match p with Low => "low" | Med => "med" | High => "high" end.

(** [c not in s] *)
Fixpoint no_char (c : ascii) (s : string) : bool :=
  match s with
  | EmptyString => true
  | String c' s' => negb (Ascii.eqb c' c) && no_char c s'
  end.

(** What the status and tag filters of [list_all] select. *)
Definition status_matches (f : StatusFilter) (s : Status) : Prop :=
  match f with FAll => True | FOpen => s = Open | FDone => s = Done end.

Definition tag_matches (tag : option string) (t : Task) : Prop :=
  match tag with
  | None => True
  | Some tg => exists g, In g t.(tags) /\ lower g = lower tg
  end.

(** [a] may precede [b] in a [sort=created] listing. *)
Definition created_before (a b : Task) : Prop :=
  a.(created_at) < b.(created_at) \/
  (a.(created_at) = b.(created_at) /\ a.(id) <= b.(id)).

(** The tokens [--k1 v1 --k2 v2 ...]. *)
Definition opt_tokens (kvs : list (string * string)) : list string :=
  flat_map (fun kv => [("--" ++ kv.1)%string; kv.2]) kvs.

(** The task id a CLI task subcommand names. *)
Definition command_id (c : TaskCommand) : option Z :=
  match c with
  | CmdDone k | CmdReopen k | CmdUpdate k _ _ _ _ | CmdDelete k => Some k
  | _ => None
  end.

(** Number of occurrences of a character. *)
Fixpoint count_char (c : ascii) (s : string) : nat :=
  match s with
  | EmptyString => O
  | String c' s' => (if Ascii.eqb c' c then 1 else 0) + count_char c s'
  end.

(** Concrete states: two [add] calls, then [mark_done] of task 1. *)
Definition demo1 : World :=
  (run_op (OpAdd "Soon" 0 (Some (mkDate 2025 1 15)) (Some High) (Some ["work"%string])) init).2.

Definition demo2 : World := (run_op (OpAdd "NoDue" 1 None None None) demo1).2.

Definition demo3 : World :=
  (run_op (OpUpdate 1 None (Some Done) NotProvided NotProvided NotProvided) demo2).2.

(* ------------------------------------------------------------------ *)
(** ** Heap and monad lemmas *)

Arguments read : simpl never.
Arguments write : simpl never.

Lemma world_eta (w : World) : mkWorld w.(objs) w.(tasks) w.(next_id) = w.
Proof. by destruct w. Qed.

Lemma write_read h l : write h l (read h l) = h.
Proof.
  unfold write, read. destruct (h !! l) eqn:E; simpl.
  - by apply list_insert_id.
  - apply list_insert_ge. by apply lookup_ge_None.
Qed.

Lemma read_write_eq h l t : (l < length h)%nat -> read (write h l t) l = t.
Proof. intros Hl. unfold read, write. by rewrite list_lookup_insert_eq. Qed.

Lemma read_write_ne h l l' t : l <> l' -> read (write h l t) l' = read h l'.
Proof. intros Hne. unfold read, write. by rewrite list_lookup_insert_ne. Qed.

Lemma write_write h l a b : write (write h l a) l b = write h l b.
Proof. apply list_insert_insert_eq. Qed.

Lemma write_ge h l t : (length h <= l)%nat -> write h l t = h.
Proof. apply list_insert_ge. Qed.

Lemma length_write h l t : length (write h l t) = length h.
Proof. apply length_insert. Qed.

(** Two in-place mutations of one object compose. *)
Lemma write_write_read h l f g :
  write (write h l (f (read h l))) l (g (read (write h l (f (read h l))) l))
  = write h l (g (f (read h l))).
Proof.
  destruct (decide (l < length h)%nat) as [Hl|Hl].
  - rewrite read_write_eq by done. unfold write. apply list_insert_insert_eq.
  - unfold write. rewrite !(list_insert_ge h) by lia. done.
Qed.

Lemma mutate_mutate l f g w :
  bind (mutate l f) (fun _ => mutate l g) w = mutate l (fun t => g (f t)) w.
Proof. unfold bind, mutate, modify. simpl. by rewrite write_write_read. Qed.

Lemma mutate_id l w : mutate l (fun t => t) w = (Ok tt, w).
Proof. unfold mutate, modify. by rewrite write_read, world_eta. Qed.

Lemma when_some_mutate {A} (o : option A) l (f : A -> Task -> Task) w :
  when_some o (fun v => mutate l (f v)) w = mutate l (opt_set o f) w.
Proof. destruct o; simpl; [done|]. by rewrite mutate_id. Qed.

Lemma when_provided_mutate {A} (o : Arg A) l (f : A -> Task -> Task) w :
  when_provided o (fun v => mutate l (f v)) w = mutate l (arg_set o f) w.
Proof. destruct o; simpl; [|done]. by rewrite mutate_id. Qed.

Lemma bind_ext {A B} (m m' : M A) (k : A -> M B) w :
  m w = m' w -> bind m k w = bind m' k w.
Proof. unfold bind. by intros ->. Qed.

(** [update] in one step: look the id up, then one in-place write. *)
Lemma update_spec w task_id title status due_date priority tags :
  update task_id title status due_date priority tags w =
  match dict_get task_id w.(tasks) with
  | None => (Err (NotFound task_id), w)
  | Some l =>
      (Ok l, mkWorld (write w.(objs) l
                        (update_fields title status due_date priority tags
                                       (read w.(objs) l)))
                     w.(tasks) w.(next_id))
  end.
Proof.
  unfold update, get, bind, gets, ret, raise. simpl.
  destruct (dict_get task_id (tasks w)) as [l|]; [|done].
  destruct (decide (l < length (objs w))%nat) as [Hl|Hl].
  - destruct title, status, due_date, priority, tags;
      unfold when_some, when_provided, mutate, modify, ret; simpl;
      repeat (rewrite write_write || rewrite read_write_eq by (rewrite ?length_write; lia));
      unfold update_fields; simpl; rewrite ?write_read, ?world_eta; done.
  - destruct title, status, due_date, priority, tags;
      unfold when_some, when_provided, mutate, modify, ret; simpl;
      repeat rewrite (write_ge (objs w)) by lia; rewrite ?world_eta; done.
Qed.

Lemma read_ge h l : (length h <= l)%nat -> read h l = null_task.
Proof.
  intros Hl. unfold read. destruct (h !! l) eqn:E; [|done].
  apply lookup_lt_Some in E. lia.
Qed.

(** [update] writes nothing outside the object it updates. *)
Lemma update_frame w task_id title status due_date priority tags l l' :
  dict_get task_id w.(tasks) = Some l -> l' <> l ->
  read (update task_id title status due_date priority tags w).2.(objs) l'
  = read w.(objs) l'.
Proof.
  intros Hk Hne. rewrite update_spec, Hk. simpl. by apply read_write_ne.
Qed.

(** [add] in one step. *)
Lemma add_spec w title created_at due_date priority tags :
  add title created_at due_date priority tags w =
  (Ok (length w.(objs)),
   mkWorld (w.(objs) ++ [mkTask w.(next_id) title Open created_at due_date priority
                                (or_empty tags)])
           (dict_set w.(next_id) (length w.(objs)) w.(tasks))
           (w.(next_id) + 1)).
Proof. reflexivity. Qed.

Lemma read_app_last h t : read (h ++ [t]) (length h) = t.
Proof. unfold read. by rewrite list_lookup_middle. Qed.

Lemma read_app_lt h t l : (l < length h)%nat -> read (h ++ [t]) l = read h l.
Proof. intros Hl. unfold read. by rewrite lookup_app_l. Qed.

Lemma delete_next_id w k : (delete k w).2.(next_id) = w.(next_id).
Proof. unfold delete, bind, gets. simpl. by destruct (dict_get k (tasks w)). Qed.

Lemma clear_done_next_id w : (clear_done w).2.(next_id) = w.(next_id).
Proof. reflexivity. Qed.

Lemma update_next_id w k t s d p g :
  (update k t s d p g w).2.(next_id) = w.(next_id).
Proof. rewrite update_spec. by destruct (dict_get k (tasks w)). Qed.

(** Each call: [add] reports the current counter and advances it by one;
    no other call reports an id or moves the counter. *)
Lemma run_op_ids o w :
  (run_op o w).1 = (match o with OpAdd _ _ _ _ _ => Some (Ok w.(next_id)) | _ => None end)
  /\ (run_op o w).2.(next_id)
     = w.(next_id) + (match o with OpAdd _ _ _ _ _ => 1 | _ => 0 end).
Proof.
  destruct o; unfold run_op.
  - rewrite add_spec. simpl. rewrite read_app_last. split; [done|lia].
  - split; [done|]. unfold get, bind, gets, ret, raise. simpl.
    destruct (dict_get task_id (tasks w)); simpl; lia.
  - split; [done|]. cbn [snd]. rewrite update_next_id. lia.
  - split; [done|]. cbn [snd]. rewrite delete_next_id. lia.
  - split; [done|]. cbn [snd]. rewrite clear_done_next_id. lia.
  - split; [done|]. simpl. lia.
Qed.

Lemma run_ops_ids os w :
  (run_ops os w).1 = map (fun i => w.(next_id) + Z.of_nat i) (seq 0 (count_adds os)).
Proof.
  revert w. induction os as [|o os IH]; intros w; [done|].
  simpl. destruct (run_op_ids o w) as [H1 H2].
  destruct (run_op o w) as [r w1] eqn:E. simpl in H1, H2.
  specialize (IH w1). destruct (run_ops os w1) as [ids w2]. simpl in IH |- *.
  rewrite IH, H2. subst r.
  destruct o; simpl.
  - f_equal; [lia|]. rewrite <- seq_shift, map_map.
    apply map_ext. intros i. lia.
  - apply map_ext. intros i. lia.
  - apply map_ext. intros i. lia.
  - apply map_ext. intros i. lia.
  - apply map_ext. intros i. lia.
  - apply map_ext. intros i. lia.
Qed.

Lemma seq_Z_sorted n s :
  StronglySorted Z.lt (map Z.of_nat (seq s n)).
Proof.
  revert s. induction n as [|n IH]; intros s; simpl; constructor; [apply IH|].
  apply List.Forall_forall. intros x Hx. apply in_map_iff in Hx as (i & <- & Hi).
  apply in_seq in Hi. lia.
Qed.

(* ------------------------------------------------------------------ *)
(** ** C1: three-valued update semantics *)

(** C1. For an existing id, [update(id)] with no field given returns the
    stored task and leaves the whole state unchanged (also through
    [TodoService.update_task(id)]); [update(id, due_date=None)] (and
    [update_task(id, due=None)]) removes the due date and keeps every other
    attribute of the task, in particular its priority and tags, and every
    other task and the counter. *)
Theorem update_three_valued w task_id l :
  dict_get task_id w.(tasks) = Some l ->
  update task_id None None NotProvided NotProvided NotProvided w = (Ok l, w) /\
  update_task task_id None NotProvided NotProvided NotProvided w = (Ok l, w) /\
  update_task task_id None (Provided None) NotProvided NotProvided w
    = update task_id None None (Provided None) NotProvided NotProvided w /\
  (let '(r, w') := update task_id None None (Provided None) NotProvided NotProvided w in
   r = Ok l /\ w'.(tasks) = w.(tasks) /\ w'.(next_id) = w.(next_id) /\
   read w'.(objs) l = set_due_date None (read w.(objs) l) /\
   (read w'.(objs) l).(due_date) = None /\
   (read w'.(objs) l).(priority) = (read w.(objs) l).(priority) /\
   (read w'.(objs) l).(tags) = (read w.(objs) l).(tags) /\
   (forall l', l' <> l -> read w'.(objs) l' = read w.(objs) l')).
Proof.
  intros Hk.
  assert (Hnone : update task_id None None NotProvided NotProvided NotProvided w = (Ok l, w)).
  { rewrite update_spec, Hk. unfold update_fields. simpl.
    by rewrite write_read, world_eta. }
  assert (Hdue : read (write w.(objs) l (set_due_date None (read w.(objs) l))) l
                 = set_due_date None (read w.(objs) l)).
  { destruct (decide (l < length (objs w))%nat).
    - by apply read_write_eq.
    - rewrite write_ge by lia. rewrite read_ge by lia. reflexivity. }
  split; [done|]. split; [apply Hnone|]. split; [reflexivity|].
  rewrite update_spec, Hk. unfold update_fields. simpl.
  rewrite Hdue. repeat split; try done.
  intros l' Hne. by apply read_write_ne.
Qed.

(* ------------------------------------------------------------------ *)
(** ** C2: id assignment *)

(** C2. Over any sequence of repository calls from a fresh repository
    ([add] interleaved with [delete], [clear_done] and every other call),
    the ids the [add] calls assign are exactly 1, 2, ..., n: they start at
    1, grow by one per [add], are strictly increasing and never repeat. *)
Theorem add_ids_sequential os :
  (run_ops os init).1 = map Z.of_nat (seq 1 (count_adds os)) /\
  StronglySorted Z.lt (run_ops os init).1 /\
  NoDup (run_ops os init).1.
Proof.
  assert (Hids : (run_ops os init).1 = map Z.of_nat (seq 1 (count_adds os))).
  { rewrite run_ops_ids. simpl. rewrite <- seq_shift, map_map.
    apply map_ext. intros i. lia. }
  rewrite Hids. split; [done|]. split; [apply seq_Z_sorted|].
  apply NoDup_ListNoDup, Finite.Injective_map_NoDup; [intros a b; lia|apply seq_NoDup].
Qed.

(* ------------------------------------------------------------------ *)
(** ** C3: failures leave the state unchanged *)

Lemma update_atomic w k t s d p g :
  unchanged_on_error (update k t s d p g w) w.
Proof.
  unfold unchanged_on_error. rewrite update_spec.
  by destruct (dict_get k (tasks w)).
Qed.

(** C3. Every service use case that raises (InvalidInput from validation,
    NotFound for a missing id) leaves the repository state exactly as it
    was: the same objects, the same dict, the same id counter. *)
Theorem services_atomic_on_error w :
  (forall now title due priority tags,
     unchanged_on_error (add_task now title due priority tags w) w) /\
  (forall task_id title due priority tags,
     unchanged_on_error (update_task task_id title due priority tags w) w) /\
  (forall task_id, unchanged_on_error (mark_done task_id w) w) /\
  (forall task_id, unchanged_on_error (reopen_task task_id w) w) /\
  (forall task_id, unchanged_on_error (delete_task task_id w) w).
Proof.
  split; [|split; [|split; [|split]]].
  - intros now title due priority tags. unfold add_task, bind, lift, ret, raise.
    destruct (validate_title title); [|done].
    destruct (parse_due_date due); [|done].
    destruct (validate_priority priority); [|done].
    unfold unchanged_on_error. by rewrite add_spec.
  - intros task_id title due priority tags.
    unfold update_task, lift_arg, bind, lift, ret, raise.
    destruct title as [t|]; [destruct (validate_title t); [|done]|];
    (destruct due as [|dv]; [|destruct (parse_due_date dv); [|done]]);
    (destruct priority as [|pv]; [|destruct (validate_priority pv); [|done]]);
    destruct tags; apply update_atomic.
  - intros task_id. apply update_atomic.
  - intros task_id. apply update_atomic.
  - intros task_id. unfold unchanged_on_error, delete_task, delete, bind, gets.
    simpl. by destruct (dict_get task_id (tasks w)).
Qed.

(* ------------------------------------------------------------------ *)
(** ** Sorting lemmas *)

Ltac zcmp :=
  repeat match goal with
  | |- context [Z.ltb ?a ?b] => destruct (Z.ltb_spec a b)
  | H : context [Z.ltb ?a ?b] |- _ => destruct (Z.ltb_spec a b)
  end.

Lemma lex_ltb_asym a b : lex_ltb a b = true -> lex_ltb b a = false.
Proof.
  revert b. induction a as [|x a IH]; intros [|y b]; simpl; try done.
  zcmp; try lia; try done. apply IH.
Qed.

Lemma lex_ltb_negtrans c a b :
  lex_ltb c a = true -> lex_ltb c b = true \/ lex_ltb b a = true.
Proof.
  revert a b. induction c as [|x c IH]; intros [|y a] [|z b]; simpl;
    intros H; zcmp; try lia; try discriminate; auto.
Qed.

Lemma key_le_trans k a b c : key_le k a b -> key_le k b c -> key_le k a c.
Proof.
  unfold key_le. intros H1 H2. destruct (lex_ltb (k c) (k a)) eqn:E; [|done].
  destruct (lex_ltb_negtrans _ _ (k b) E); congruence.
Qed.

Lemma insert_by_perm k x ys : Permutation (insert_by k x ys) (x :: ys).
Proof.
  induction ys as [|y ys IH]; simpl; [done|].
  destruct (lex_ltb (k y) (k x)); [|done].
  rewrite IH. apply perm_swap.
Qed.

Lemma sorted_by_perm k xs : Permutation (sorted_by k xs) xs.
Proof.
  induction xs as [|x xs IH]; simpl; [done|].
  rewrite insert_by_perm. by constructor.
Qed.

Lemma insert_by_sorted k x ys :
  Sorted (key_le k) ys -> Sorted (key_le k) (insert_by k x ys).
Proof.
  induction ys as [|y ys IH]; intros Hs; simpl.
  - repeat constructor.
  - destruct (lex_ltb (k y) (k x)) eqn:E.
    + apply Sorted_inv in Hs as [Hs Hhd]. constructor; [by apply IH|].
      destruct ys as [|z ys]; simpl.
      * constructor. unfold key_le. by apply lex_ltb_asym.
      * destruct (lex_ltb (k z) (k x)); constructor.
        -- by apply HdRel_inv in Hhd.
        -- unfold key_le. by apply lex_ltb_asym.
    + constructor; [done|]. by constructor.
Qed.

Lemma sorted_by_sorted k xs : StronglySorted (key_le k) (sorted_by k xs).
Proof.
  apply Sorted_StronglySorted; [intros a b c; apply key_le_trans|].
  induction xs as [|x xs IH]; simpl; [constructor|]. by apply insert_by_sorted.
Qed.

Lemma StronglySorted_weaken {A} (R R' : A -> A -> Prop) l :
  (forall a b, R a b -> R' a b) -> StronglySorted R l -> StronglySorted R' l.
Proof.
  intros HR. induction 1; constructor; [done|].
  eapply List.Forall_impl; [|done]. apply HR.
Qed.

Lemma list_all_result w status tag sort :
  exists ls, list_all status tag sort w = (Ok ls, w) /\
             ls = sort_tasks w.(objs)
                    (match tag with
                     | None => fun ts => ts
                     | Some tg => List.filter (fun l => has_tag (lower tg) (read w.(objs) l))
                     end
                     (match status with
                      | FAll => map snd w.(tasks)
                      | FOpen => List.filter (fun l => status_eqb (status_of (read w.(objs) l)) Open)
                                        (map snd w.(tasks))
                      | FDone => List.filter (fun l => status_eqb (status_of (read w.(objs) l)) Done)
                                        (map snd w.(tasks))
                      end)) sort.
Proof. eexists. split; [reflexivity|]. by destruct status, tag. Qed.

Ltac zcmp_simpl := repeat (zcmp; simpl in *).

Lemma due_key_before a b :
  lex_ltb (due_key b) (due_key a) = false -> due_before a b.
Proof.
  unfold due_key, date_key, due_before, date_before.
  destruct (due_date a) as [[y1 m1 d1]|], (due_date b) as [[y2 m2 d2]|];
    simpl; intros H; zcmp_simpl; try discriminate; try tauto;
    try (left; lia); try (right; split; [f_equal; lia | lia]); lia.
Qed.

Lemma priority_key_before a b :
  lex_ltb (priority_key b) (priority_key a) = false -> priority_before a b.
Proof.
  unfold priority_key, priority_before.
  destruct (priority a) as [[]|], (priority b) as [[]|];
    simpl; intros H; zcmp_simpl; try discriminate;
    split; simpl; try tauto; intros; try discriminate; lia.
Qed.

(* ------------------------------------------------------------------ *)
(** ** C6, C7: listing order *)

(** C6. [list(sort="due")] (under any status and tag filter) lists tasks so
    that every task with a due date precedes every task without one, dated
    tasks ascend by date with ascending id on equal dates, undated tasks
    ascend by id; with no filter it lists every stored task exactly once. *)
Theorem list_due_order w :
  (forall status tag, exists ls,
     list_all status tag SDue w = (Ok ls, w) /\
     StronglySorted (fun a b => due_before (read w.(objs) a) (read w.(objs) b)) ls) /\
  (exists ls, list_all FAll None SDue w = (Ok ls, w) /\
              Permutation ls (map snd w.(tasks))).
Proof.
  split.
  - intros status tag. destruct (list_all_result w status tag SDue) as (ls & Hr & ->).
    eexists. split; [exact Hr|]. simpl.
    eapply StronglySorted_weaken; [|apply sorted_by_sorted].
    intros a b. apply due_key_before.
  - eexists. split; [reflexivity|]. apply sorted_by_perm.
Qed.

(** C7. [list(sort="priority")] (under any status and tag filter) lists
    high before med before low before no priority, and tasks of equal
    priority in ascending id order; with no filter it lists every stored
    task exactly once. *)
Theorem list_priority_order w :
  (forall status tag, exists ls,
     list_all status tag SPriority w = (Ok ls, w) /\
     StronglySorted (fun a b => priority_before (read w.(objs) a) (read w.(objs) b)) ls) /\
  (exists ls, list_all FAll None SPriority w = (Ok ls, w) /\
              Permutation ls (map snd w.(tasks))).
Proof.
  split.
  - intros status tag.
    destruct (list_all_result w status tag SPriority) as (ls & Hr & ->).
    eexists. split; [exact Hr|]. simpl.
    eapply StronglySorted_weaken; [|apply sorted_by_sorted].
    intros a b. apply priority_key_before.
  - eexists. split; [reflexivity|]. apply sorted_by_perm.
Qed.

(* ------------------------------------------------------------------ *)
(** ** Dict lemmas and the well-formedness invariant *)

Lemma dict_get_In k d l : dict_get k d = Some l -> In (k, l) d.
Proof.
  induction d as [|[k' v] d IH]; simpl; [done|].
  destruct (Z.eqb_spec k k'); [intros [= ->]; subst; by left|].
  intros H. right. by apply IH.
Qed.

Lemma In_dict_get k l d :
  List.NoDup (map fst d) -> In (k, l) d -> dict_get k d = Some l.
Proof.
  induction d as [|[k' v] d IH]; simpl; [done|].
  intros Hnd Hin. apply NoDup_cons_iff in Hnd as [Hk' Hnd].
  destruct (Z.eqb_spec k k') as [->|Hne].
  - destruct Hin as [[= ->]|Hin]; [done|].
    exfalso. apply Hk'. apply in_map_iff. by exists (k', l).
  - destruct Hin as [[= -> ->]|Hin]; [done|]. by apply IH.
Qed.

Lemma dict_set_new k v d : ~ In k (map fst d) -> dict_set k v d = d ++ [(k, v)].
Proof.
  induction d as [|[k' v'] d IH]; simpl; [done|].
  intros Hn. destruct (Z.eqb_spec k k'); [subst; tauto|].
  f_equal. apply IH. tauto.
Qed.

Lemma NoDup_map_fst_filter (f : Z * loc -> bool) d :
  List.NoDup (map fst d) -> List.NoDup (map fst (List.filter f d)).
Proof.
  induction d as [|e d IH]; simpl; [done|].
  intros Hnd. apply NoDup_cons_iff in Hnd as [He Hnd].
  destruct (f e); simpl; [|by apply IH].
  constructor; [|by apply IH].
  intros Hin. apply He. apply in_map_iff in Hin as (e' & Hfst & Hin').
  apply filter_In in Hin' as [Hin' _]. apply in_map_iff. by exists e'.
Qed.

Lemma filter_filter_andb {A} (f g : A -> bool) l :
  List.filter f (List.filter g l) = List.filter (fun x => g x && f x) l.
Proof.
  induction l as [|x l IH]; simpl; [done|].
  destruct (g x); simpl; [destruct (f x); simpl; by rewrite IH|done].
Qed.

Lemma filter_true {A} (l : list A) : List.filter (fun _ => true) l = l.
Proof. induction l; simpl; by f_equal. Qed.

(** [for tid in ids: del d[tid]] *)
Lemma fold_dict_del ids d :
  fold_left (fun d tid => dict_del tid d) ids d
  = List.filter (fun e => negb (existsb (fun tid => Z.eqb tid e.1) ids)) d.
Proof.
  revert d. induction ids as [|i ids IH]; intros d; simpl.
  - symmetry. apply filter_true.
  - rewrite IH. unfold dict_del. rewrite filter_filter_andb.
    apply filter_ext_in. intros e _. by destruct (Z.eqb i e.1).
Qed.

Lemma get_state w k : (get k w).2 = w.
Proof. unfold get, bind, gets, ret, raise. simpl. by destruct (dict_get k (tasks w)). Qed.

Lemma update_fields_id title status due_date priority tags t :
  (update_fields title status due_date priority tags t).(id) = t.(id).
Proof. by destruct title, status, due_date, priority, tags. Qed.

(** Reading an id through any location after one in-place write that keeps
    ids. *)
Lemma read_write_id h l t l' :
  t.(id) = (read h l).(id) -> (read (write h l t) l').(id) = (read h l').(id).
Proof.
  intros Ht. destruct (decide (l = l')) as [<-|Hne].
  - destruct (decide (l < length h)%nat).
    + by rewrite read_write_eq.
    + by rewrite write_ge by lia.
  - by rewrite read_write_ne.
Qed.

Lemma wf_add w t c d p g : wf w -> wf (add t c d p g w).2.
Proof.
  intros (Hn & Hnd & Hin). rewrite add_spec. simpl.
  assert (Hfresh : ~ In w.(next_id) (map fst w.(tasks))).
  { intros Hk. apply in_map_iff in Hk as ([k l] & Hk & Hkl). simpl in Hk. subst.
    destruct (Hin _ _ Hkl) as (_ & _ & Hlt & _). lia. }
  rewrite dict_set_new by done. unfold wf. simpl. split; [lia|]. split.
  - rewrite map_app. apply List.NoDup_app; [done|constructor; [simpl; tauto|constructor]|].
    intros a Ha [<-|[]]. by apply Hfresh.
  - intros k l Hkl. rewrite length_app. simpl.
    apply in_app_or in Hkl as [Hkl|[[= <- <-]|[]]].
    + destruct (Hin _ _ Hkl) as (Hid & H1 & Hlt & Hl).
      rewrite read_app_lt by done. repeat split; lia.
    + rewrite read_app_last. simpl. repeat split; lia.
Qed.

Lemma wf_update w k t s d p g : wf w -> wf (update k t s d p g w).2.
Proof.
  intros Hw. rewrite update_spec.
  destruct (dict_get k (tasks w)) as [l|]; [|done].
  destruct Hw as (Hn & Hnd & Hin). unfold wf. simpl.
  split; [done|]. split; [done|].
  intros k' l' Hkl. destruct (Hin _ _ Hkl) as (Hid & H1 & Hlt & Hl).
  rewrite read_write_id by apply update_fields_id. rewrite length_write.
  repeat split; lia.
Qed.

Lemma wf_filter w f :
  wf w -> wf (mkWorld w.(objs) (List.filter f w.(tasks)) w.(next_id)).
Proof.
  intros (Hn & Hnd & Hin). unfold wf. simpl.
  split; [done|]. split; [by apply NoDup_map_fst_filter|].
  intros k l Hkl. apply filter_In in Hkl as [Hkl _]. by apply Hin.
Qed.

Lemma wf_run_op o w : wf w -> wf (run_op o w).2.
Proof.
  intros Hw. destruct o; unfold run_op.
  - match goal with |- context [add ?a ?b ?c ?d ?e w] =>
      pose proof (wf_add w a b c d e Hw) as Ha;
      destruct (add a b c d e w) as [r w'] end.
    done.
  - cbn [snd]. by rewrite get_state.
  - cbn [snd]. by apply wf_update.
  - cbn [snd]. unfold delete, bind, gets. simpl.
    destruct (dict_get task_id (tasks w)); simpl; [|done].
    by apply (wf_filter w).
  - cbn [snd]. unfold clear_done, bind, gets, modify, ret. simpl.
    rewrite fold_dict_del. by apply (wf_filter w).
  - done.
Qed.

Lemma reachable_wf w : reachable w -> wf w.
Proof.
  induction 1 as [|w o _ IH].
  - split; [simpl; lia|]. split; [constructor|]. simpl. tauto.
  - by apply wf_run_op.
Qed.

(* ------------------------------------------------------------------ *)
(** ** C9: status transitions *)

Lemma set_status_twice s t : set_status s (set_status s t) = set_status s t.
Proof. by destruct t. Qed.

Lemma set_status_transition w task_id l s :
  reachable w -> dict_get task_id w.(tasks) = Some l ->
  let '(r, w') := update task_id None (Some s) NotProvided NotProvided NotProvided w in
  r = Ok l /\ w'.(tasks) = w.(tasks) /\ w'.(next_id) = w.(next_id) /\
  read w'.(objs) l = set_status s (read w.(objs) l) /\
  (forall l', l' <> l -> read w'.(objs) l' = read w.(objs) l') /\
  update task_id None (Some s) NotProvided NotProvided NotProvided w' = (r, w').
Proof.
  intros Hr Hk. destruct (reachable_wf w Hr) as (_ & _ & Hin).
  destruct (Hin _ _ (dict_get_In _ _ _ Hk)) as (_ & _ & _ & Hl).
  rewrite update_spec, Hk. unfold update_fields. simpl.
  split; [done|]. split; [done|]. split; [done|].
  split; [by apply read_write_eq|].
  split; [intros l' Hne; by apply read_write_ne|].
  rewrite update_spec. simpl. rewrite Hk. unfold update_fields. simpl.
  rewrite read_write_eq by done. by rewrite set_status_twice, write_write.
Qed.

(** C9. For an id present in a reachable state, [mark_done] and
    [reopen_task] succeed whatever the task's status, return the stored
    task, set its status to done (resp. open) and change nothing else
    (no other attribute, no other task, not the dict or the counter); a
    second identical call returns the same task and leaves the state as
    the first call left it. *)
Theorem status_transitions w task_id l :
  reachable w -> dict_get task_id w.(tasks) = Some l ->
  (let '(r, w') := mark_done task_id w in
   r = Ok l /\ w'.(tasks) = w.(tasks) /\ w'.(next_id) = w.(next_id) /\
   read w'.(objs) l = set_status Done (read w.(objs) l) /\
   (forall l', l' <> l -> read w'.(objs) l' = read w.(objs) l') /\
   mark_done task_id w' = (r, w')) /\
  (let '(r, w') := reopen_task task_id w in
   r = Ok l /\ w'.(tasks) = w.(tasks) /\ w'.(next_id) = w.(next_id) /\
   read w'.(objs) l = set_status Open (read w.(objs) l) /\
   (forall l', l' <> l -> read w'.(objs) l' = read w.(objs) l') /\
   reopen_task task_id w' = (r, w')).
Proof.
  intros Hr Hk. split; [apply (set_status_transition w task_id l Done Hr Hk)|].
  apply (set_status_transition w task_id l Open Hr Hk).
Qed.

(* ------------------------------------------------------------------ *)
(** ** C10: well-formedness of reachable states *)

(** C10. In every state reachable from [__init__] by repository calls,
    each stored task sits under its own id, the stored ids are pairwise
    distinct and positive, each is below the next-id counter, and
    therefore [add] never overwrites a stored task: it appends a new key
    and keeps every existing entry. *)
Theorem reachable_well_formed w :
  reachable w ->
  List.NoDup (map fst w.(tasks)) /\
  (forall k l, In (k, l) w.(tasks) ->
     (read w.(objs) l).(id) = k /\ 1 <= k /\ k < w.(next_id)) /\
  ~ In w.(next_id) (map fst w.(tasks)) /\
  (forall title created_at due_date priority tags,
     (add title created_at due_date priority tags w).2.(tasks)
     = w.(tasks) ++ [(w.(next_id), length w.(objs))]).
Proof.
  intros Hr. destruct (reachable_wf w Hr) as (Hn & Hnd & Hin).
  assert (Hfresh : ~ In w.(next_id) (map fst w.(tasks))).
  { intros Hk. apply in_map_iff in Hk as ([k l] & Hk & Hkl). simpl in Hk. subst.
    destruct (Hin _ _ Hkl) as (_ & _ & Hlt & _). lia. }
  split; [done|]. split.
  - intros k l Hkl. destruct (Hin _ _ Hkl) as (? & ? & ? & _). done.
  - split; [done|]. intros. rewrite add_spec. simpl. by apply dict_set_new.
Qed.

(* ------------------------------------------------------------------ *)
(** ** C5: clear_done *)

Lemma in_map_fst_filter (P : Z * loc -> bool) d k :
  In k (map fst (List.filter P d)) -> In k (map fst d).
Proof.
  intros Hk. apply in_map_iff in Hk as (e & <- & He).
  apply filter_In in He as [He _]. apply in_map_iff. by exists e.
Qed.

(** With distinct keys, an entry's key is among the keys of the entries
    selected by [P] exactly when the entry itself is selected. *)
Lemma key_in_filtered (P : Z * loc -> bool) d :
  List.NoDup (map fst d) -> forall e, In e d ->
  existsb (fun tid => Z.eqb tid e.1) (map fst (List.filter P d)) = P e.
Proof.
  induction d as [|x d IH]; intros Hnd e Hin; [done|].
  simpl in Hnd. apply NoDup_cons_iff in Hnd as [Hx Hnd].
  destruct Hin as [<-|Hin].
  - simpl. destruct (P x) eqn:Ex; simpl; [by rewrite Z.eqb_refl|].
    apply not_true_is_false. intros Hex.
    apply existsb_exists in Hex as (t & Ht & Heq). apply Z.eqb_eq in Heq. subst.
    apply Hx. by apply (in_map_fst_filter P).
  - simpl. destruct (P x); simpl; [|by apply IH].
    rewrite IH by done.
    destruct (Z.eqb_spec x.1 e.1) as [Heq|]; [|done].
    exfalso. apply Hx. rewrite Heq. apply in_map_iff. by exists e.
Qed.

Lemma filter_done_of_open h (d : list (Z * loc)) :
  List.filter (fun l => status_eqb (status_of (read h l)) Done)
    (map snd (List.filter (fun e => status_eqb (status_of (read h e.2)) Open) d)) = [].
Proof.
  induction d as [|e d IH]; simpl; [done|].
  destruct (status_of (read h e.2)) eqn:E; simpl; [rewrite E|]; done.
Qed.

(** C5. With distinct keys (as in every reachable state), [clear_done]
    returns the number of done tasks stored before the call, keeps exactly
    the open entries (same ids, same objects, same order), touches no
    object and not the counter, and afterwards [list(status="done")] is
    empty under any tag filter and sort. *)
Theorem clear_done_post w :
  List.NoDup (map fst w.(tasks)) ->
  let '(r, w') := clear_done w in
  r = Ok (Z.of_nat (length (List.filter
                     (fun e => status_eqb (status_of (read w.(objs) e.2)) Done)
                     w.(tasks)))) /\
  w'.(tasks) = List.filter (fun e => status_eqb (status_of (read w.(objs) e.2)) Open)
                           w.(tasks) /\
  w'.(objs) = w.(objs) /\ w'.(next_id) = w.(next_id) /\
  (forall tag sort, (list_all FDone tag sort w').1 = Ok []).
Proof.
  intros Hnd.
  assert (Htasks : fold_left (fun d tid => dict_del tid d) (done_ids_of w) w.(tasks)
                   = List.filter (fun e => status_eqb (status_of (read w.(objs) e.2)) Open)
                                 w.(tasks)).
  { rewrite fold_dict_del. unfold done_ids_of. apply filter_ext_in. intros e He.
    rewrite (key_in_filtered _ _ Hnd e He). unfold status_of.
    by destruct (status (read (objs w) e.2)). }
  unfold clear_done, bind, gets, modify, ret. simpl. rewrite Htasks.
  split; [unfold done_ids_of; by rewrite length_map|].
  split; [done|]. split; [done|]. split; [done|].
  intros tag sort. unfold list_all. simpl. rewrite filter_done_of_open.
  by destruct tag, sort.
Qed.

(* ------------------------------------------------------------------ *)
(** ** C4: what a query hands out *)

(** C4 (counterexample). After [add("Buy milk"%string)], [list()] and [get(1)]
    both hand out object 0, the stored task itself; a caller that sets the
    title of that object changes what a later [get(1)] and [list()]
    observe. *)
Lemma returned_task_mutation_visible :
  let w1 := (add "Buy milk"%string 0 None None None init).2 in
  let w2 := (caller_mutate 0%nat (set_title "changed"%string) w1).2 in
  (list_all FAll None SCreated w1).1 = Ok [0%nat] /\
  (get 1 w1).1 = Ok 0%nat /\
  (read w1.(objs) 0).(title) = "Buy milk"%string /\
  (get 1 w2).1 = Ok 0%nat /\
  (list_all FAll None SCreated w2).1 = Ok [0%nat] /\
  (read w2.(objs) 0).(title) = "changed"%string.
Proof. vm_compute. repeat split. Qed.

Lemma sort_tasks_perm h ts sort : Permutation (sort_tasks h ts sort) ts.
Proof. destruct sort; apply sorted_by_perm. Qed.

Lemma status_eqb_eq a b : status_eqb a b = true <-> a = b.
Proof. destruct a, b; simpl; split; congruence. Qed.

Lemma has_tag_iff tg t :
  has_tag (lower tg) t = true <-> exists g, In g t.(tags) /\ lower g = lower tg.
Proof.
  unfold has_tag. rewrite existsb_exists.
  split; intros (g & Hg & He); exists g; split; try done;
    by apply String.eqb_eq.
Qed.

Lemma perm_in_iff {A} (x : A) l l' : Permutation l l' -> In x l <-> In x l'.
Proof. intros Hp. split; apply Permutation_in; [done|by symmetry]. Qed.

(** Which stored objects a [list_all] call returns. *)
Lemma list_all_mem w sf tg so :
  exists ls, list_all sf tg so w = (Ok ls, w) /\
  forall l, In l ls <->
    In l (map snd w.(tasks)) /\ status_matches sf (read w.(objs) l).(status)
    /\ tag_matches tg (read w.(objs) l).
Proof.
  destruct (list_all_result w sf tg so) as (ls & Hr & ->).
  eexists. split; [exact Hr|]. intros l.
  rewrite (perm_in_iff l _ _ (sort_tasks_perm _ _ so)).
  destruct tg as [g|]; [rewrite filter_In, has_tag_iff|];
    destruct sf; try rewrite filter_In, status_eqb_eq; unfold status_of;
    simpl; tauto.
Qed.

Lemma dict_get_set_eq k v d : dict_get k (dict_set k v d) = Some v.
Proof.
  induction d as [|[k' v'] d IH]; simpl; [by rewrite Z.eqb_refl|].
  destruct (Z.eqb_spec k k'); simpl; [by rewrite Z.eqb_refl|].
  destruct (Z.eqb_spec k k'); [lia|done].
Qed.

(** C4 (amended). [list_all] returns a new list and changes no state, but
    its elements are the stored objects (every stored object is listed by
    an unfiltered query); [get] and [update] return the stored object of
    the id, and [add] returns the object it stores under the new id.  A
    caller's in-place mutation of such an object [l] changes nothing but
    that object, and every later call sees it: [get] returns the mutated
    object, [list_all] filters on its new fields, and [update] applies its
    changes on top of the caller's. *)
Theorem query_results_share_storage w task_id l f :
  reachable w -> dict_get task_id w.(tasks) = Some l ->
  (forall sf tg so, exists ls,
     list_all sf tg so w = (Ok ls, w) /\
     forall l', In l' ls -> exists k, In (k, l') w.(tasks)) /\
  (forall so, exists ls, list_all FAll None so w = (Ok ls, w) /\ In l ls) /\
  get task_id w = (Ok l, w) /\
  (forall ti st du pr tg, (update task_id ti st du pr tg w).1 = Ok l) /\
  (forall ti c du pr tg, exists l1 w1,
     add ti c du pr tg w = (Ok l1, w1) /\ get w.(next_id) w1 = (Ok l1, w1)) /\
  (let t := read w.(objs) l in
   let w' := (caller_mutate l f w).2 in
   w'.(tasks) = w.(tasks) /\ w'.(next_id) = w.(next_id) /\
   (forall l', l' <> l -> read w'.(objs) l' = read w.(objs) l') /\
   get task_id w' = (Ok l, w') /\
   read w'.(objs) l = f t /\
   (forall sf tg so, exists ls, list_all sf tg so w' = (Ok ls, w') /\
      (In l ls <-> status_matches sf (f t).(status) /\ tag_matches tg (f t))) /\
   (forall ti st du pr tg, exists w'',
      update task_id ti st du pr tg w' = (Ok l, w'') /\
      read w''.(objs) l = update_fields ti st du pr tg (f t))).
Proof.
  intros Hr Hk. destruct (reachable_wf w Hr) as (_ & _ & Hin).
  assert (Hkl : In (task_id, l) w.(tasks)) by (by apply dict_get_In).
  assert (Hm : In l (map snd w.(tasks))) by (apply in_map_iff; by exists (task_id, l)).
  destruct (Hin _ _ Hkl) as (_ & _ & _ & Hl).
  split; [|split; [|split; [|split; [|split]]]].
  - intros sf tg so. destruct (list_all_mem w sf tg so) as (ls & Hls & Hiff).
    exists ls. split; [done|]. intros l' Hl'.
    apply Hiff in Hl' as [Hl' _].
    apply in_map_iff in Hl' as ([k l''] & Heq & Hkl'). simpl in Heq. subst.
    by exists k.
  - intros so. destruct (list_all_mem w FAll None so) as (ls & Hls & Hiff).
    exists ls. split; [done|]. apply Hiff. simpl. tauto.
  - unfold get, bind, gets, ret. simpl. by rewrite Hk.
  - intros. by rewrite update_spec, Hk.
  - intros. rewrite add_spec. do 2 eexists. split; [reflexivity|].
    unfold get, bind, gets, ret. simpl. by rewrite dict_get_set_eq.
  - cbv zeta. cbn [caller_mutate mutate modify snd tasks next_id objs].
    assert (Hrd : read (write w.(objs) l (f (read w.(objs) l))) l = f (read w.(objs) l))
      by (by apply read_write_eq).
    split; [done|]. split; [done|]. split; [|split; [|split; [|split]]].
    + intros l' Hne. by apply read_write_ne.
    + unfold get, bind, gets, ret. simpl. by rewrite Hk.
    + exact Hrd.
    + intros sf tg so.
      destruct (list_all_mem (mkWorld (write w.(objs) l (f (read w.(objs) l)))
                                      w.(tasks) w.(next_id)) sf tg so) as (ls & Hls & Hiff).
      exists ls. split; [done|]. rewrite Hiff. cbn [objs tasks]. rewrite Hrd. tauto.
    + intros. rewrite update_spec. cbn [tasks objs next_id]. rewrite Hk.
      eexists. split; [reflexivity|]. cbn [objs].
      rewrite read_write_eq, Hrd; [done|]. by rewrite length_write.
Qed.

(* ------------------------------------------------------------------ *)
(** ** C8: due-date parsing *)

Lemma zdigit_code n : 0 <= n <= 9 -> Z.of_nat (nat_of_ascii (zdigit n)) = 48 + n.
Proof.
  intros Hn. unfold zdigit. rewrite nat_ascii_embedding by lia. lia.
Qed.

Lemma check_date_args_real y m d : 0 <= y -> check_date_args y m d = real_date y m d.
Proof.
  intros Hy. unfold check_date_args, real_date, MINYEAR, MAXYEAR.
  destruct (1 <=? y), (y <=? 9999); simpl; try done.
  destruct (Z.leb_spec 1 m), (Z.leb_spec m 12); simpl; try done.
  replace (days_in_month y m) with (month_length y m); [done|].
  unfold days_in_month, month_length, is_leap, gregorian_leap.
  rewrite !Z.rem_mod_nonneg by lia.
  assert (m = 1 \/ m = 2 \/ m = 3 \/ m = 4 \/ m = 5 \/ m = 6 \/ m = 7 \/ m = 8
          \/ m = 9 \/ m = 10 \/ m = 11 \/ m = 12) as Hm by lia.
  repeat destruct Hm as [->|Hm]; simpl; try done; subst m; simpl; done.
Qed.

Ltac zdecide :=
  repeat match goal with
  | |- context [?a <? ?b] =>
      first [rewrite (proj2 (Z.ltb_lt a b)) by lia
            | rewrite (proj2 (Z.ltb_ge a b)) by lia]
  | |- context [?a <=? ?b] =>
      first [rewrite (proj2 (Z.leb_le a b)) by lia
            | rewrite (proj2 (Z.leb_gt a b)) by lia]
  | |- context [?a =? ?b] =>
      first [rewrite (proj2 (Z.eqb_eq a b)) by lia
            | rewrite (proj2 (Z.eqb_neq a b)) by lia]
  end.

Lemma fromisoformat_calendar y1 y2 y3 y4 m1 m2 d1 d2 :
  0 <= y1 <= 9 -> 0 <= y2 <= 9 -> 0 <= y3 <= 9 -> 0 <= y4 <= 9 ->
  0 <= m1 <= 9 -> 0 <= m2 <= 9 -> 0 <= d1 <= 9 -> 0 <= d2 <= 9 ->
  let y := 1000 * y1 + 100 * y2 + 10 * y3 + y4 in
  let m := 10 * m1 + m2 in
  let d := 10 * d1 + d2 in
  fromisoformat (iso_date_text y1 y2 y3 y4 m1 m2 d1 d2)
  = if real_date y m d then Some (mkDate y m d) else None.
Proof.
  intros. unfold fromisoformat, iso_date_text, utf8_bytes. simpl.
  rewrite !zdigit_code by lia.
  zdecide. simpl. change (Z.of_nat (nat_of_ascii "-")) with 45.
  unfold parse_isoformat_date. simpl.
  do 8 (unfold byte_at; simpl; zdecide).
  replace ((((0 * 10 + (48 + y1 - 48)) * 10 + (48 + y2 - 48)) * 10 + (48 + y3 - 48)) * 10
           + (48 + y4 - 48)) with y by (subst y; ring).
  replace ((0 * 10 + (48 + m1 - 48)) * 10 + (48 + m2 - 48)) with m by (subst m; ring).
  replace ((0 * 10 + (48 + d1 - 48)) * 10 + (48 + d2 - 48)) with d by (subst d; ring).
  rewrite check_date_args_real by (subst y; lia). done.
Qed.

(** C8 (code bug). The docstring of [parse_due_date], its error message
    and the CLI's metavar all name the form YYYY-MM-DD, but on CPython 3.11
    and later [date.fromisoformat] also accepts other ISO 8601 forms: the
    basic form [20250115] and the week date [2025-W03-3] are both accepted
    as 2025-01-15, while a string such as [2025/01/15] is rejected with the
    message "Expected YYYY-MM-DD". *)
Lemma parse_due_date_other_forms :
  parse_due_date (Some "20250115"%string) = Ok (Some (mkDate 2025 1 15)) /\
  parse_due_date (Some "2025-W03-3"%string) = Ok (Some (mkDate 2025 1 15)) /\
  parse_due_date (Some "2025/01/15"%string)
  = Err (InvalidInput "Invalid date format: 2025/01/15. Expected YYYY-MM-DD"%string).
Proof. vm_compute. repeat split. Qed.

(** X20. [parse_due_date(None)] is [None]; a present string either gives a
    date or raises InvalidInput with the message "Invalid date format:
    <string>. Expected YYYY-MM-DD"; a string of the form DDDD-DD-DD (ASCII
    digits) is accepted exactly when it names a real Gregorian date with a
    year from 1 to 9999, and then gives that date. *)
Theorem parse_due_date_behaviour :
  parse_due_date None = Ok None /\
  (forall s,
     (exists d, parse_due_date (Some s) = Ok (Some d)) \/
     parse_due_date (Some s)
     = Err (InvalidInput ("Invalid date format: " ++ s ++ ". Expected YYYY-MM-DD"))) /\
  (forall y1 y2 y3 y4 m1 m2 d1 d2,
     0 <= y1 <= 9 -> 0 <= y2 <= 9 -> 0 <= y3 <= 9 -> 0 <= y4 <= 9 ->
     0 <= m1 <= 9 -> 0 <= m2 <= 9 -> 0 <= d1 <= 9 -> 0 <= d2 <= 9 ->
     let s := iso_date_text y1 y2 y3 y4 m1 m2 d1 d2 in
     let y := 1000 * y1 + 100 * y2 + 10 * y3 + y4 in
     let m := 10 * m1 + m2 in
     let d := 10 * d1 + d2 in
     parse_due_date (Some s)
     = if real_date y m d then Ok (Some (mkDate y m d))
       else Err (InvalidInput ("Invalid date format: " ++ s ++ ". Expected YYYY-MM-DD"))).
Proof.
  split; [done|]. split.
  - intros s. unfold parse_due_date.
    destruct (fromisoformat s) as [d|]; [left; by exists d|by right].
  - intros y1 y2 y3 y4 m1 m2 d1 d2 ? ? ? ? ? ? ? ?. cbv zeta.
    unfold parse_due_date. rewrite fromisoformat_calendar by done.
    by destruct (real_date _ _ _).
Qed.

(* ------------------------------------------------------------------ *)
(** ** Witnesses *)

Lemma demo2_reachable : reachable demo2.
Proof. unfold demo2, demo1. apply reachable_step, reachable_step, reachable_init. Qed.

Lemma demo3_reachable : reachable demo3.
Proof. unfold demo3. apply reachable_step, demo2_reachable. Qed.

Lemma update_three_valued_witness :
  dict_get 1 demo2.(tasks) = Some 0%nat /\
  update 1 None None NotProvided NotProvided NotProvided demo2 = (Ok 0%nat, demo2).
Proof.
  split; [reflexivity|].
  exact (proj1 (update_three_valued demo2 1 0%nat eq_refl)).
Defined.

Lemma query_results_share_storage_witness :
  reachable demo2 /\ dict_get 1 demo2.(tasks) = Some 0%nat /\
  get 1 (caller_mutate 0%nat (set_title "x"%string) demo2).2
  = (Ok 0%nat, (caller_mutate 0%nat (set_title "x"%string) demo2).2) /\
  read (caller_mutate 0%nat (set_title "x"%string) demo2).2.(objs) 0%nat
  = set_title "x"%string (read demo2.(objs) 0%nat).
Proof.
  destruct (query_results_share_storage demo2 1 0%nat (set_title "x"%string)
              demo2_reachable eq_refl) as (_ & _ & _ & _ & _ & _ & _ & _ & Hg & Hrd & _).
  split; [exact demo2_reachable|]. split; [reflexivity|]. split; [exact Hg|exact Hrd].
Defined.

Lemma clear_done_post_witness :
  List.NoDup (map fst demo3.(tasks)) /\
  (clear_done demo3).1 = Ok 1 /\ (clear_done demo3).2.(tasks) = [(2, 1%nat)].
Proof.
  assert (Hnd : List.NoDup (map fst demo3.(tasks))).
  { vm_compute. repeat constructor; simpl; lia. }
  split; [exact Hnd|].
  pose proof (clear_done_post demo3 Hnd) as H.
  destruct (clear_done demo3) as [r w'] eqn:E.
  destruct H as (Hr & Ht & _). simpl. split.
  - rewrite Hr. reflexivity.
  - rewrite Ht. reflexivity.
Defined.

Lemma parse_due_date_behaviour_witness :
  parse_due_date (Some (iso_date_text 2 0 2 5 0 2 3 0))
  = Err (InvalidInput "Invalid date format: 2025-02-30. Expected YYYY-MM-DD"%string) /\
  parse_due_date (Some (iso_date_text 2 0 2 4 0 2 2 9)) = Ok (Some (mkDate 2024 2 29)).
Proof.
  destruct parse_due_date_behaviour as (_ & _ & H).
  split.
  - rewrite (H 2 0 2 5 0 2 3 0) by lia. reflexivity.
  - rewrite (H 2 0 2 4 0 2 2 9) by lia. reflexivity.
Defined.

Lemma status_transitions_witness :
  reachable demo2 /\ dict_get 1 demo2.(tasks) = Some 0%nat /\
  (mark_done 1 demo2).1 = Ok 0%nat.
Proof.
  split; [exact demo2_reachable|]. split; [reflexivity|].
  pose proof (status_transitions demo2 1 0%nat demo2_reachable eq_refl) as [H _].
  destruct (mark_done 1 demo2) as [r w'] eqn:E.
  destruct H as [Hr _]. exact Hr.
Defined.

Lemma reachable_well_formed_witness :
  reachable demo3 /\ List.NoDup (map fst demo3.(tasks)) /\
  ~ In demo3.(next_id) (map fst demo3.(tasks)).
Proof.
  split; [exact demo3_reachable|].
  destruct (reachable_well_formed demo3 demo3_reachable) as (Hnd & _ & Hfresh & _).
  split; [exact Hnd|exact Hfresh].
Defined.

(* ------------------------------------------------------------------ *)
(** ** Scenarios of the spec *)

(** Scenario 3: "Soon" (2025-01-15), "Later" (2025-12-31), "NoDue" are
    listed in that order by [sort=due]. *)
Example scenario_due_order :
  let w := (run_ops [OpAdd "NoDue" 0 None None None;
                     OpAdd "Later" 1 (Some (mkDate 2025 12 31)) None None;
                     OpAdd "Soon" 2 (Some (mkDate 2025 1 15)) None None] init).2 in
  option_map (fun ls => map (fun l => (read w.(objs) l).(title)) ls)
    (match (list_all FAll None SDue w).1 with Ok ls => Some ls | Err _ => None end)
  = Some ["Soon"; "Later"; "NoDue"]%string.
Proof. vm_compute. reflexivity. Qed.

(** Scenario 6: [update(id, tags="work,,home")] stores ["work"; "home"]. *)
Example scenario_tags :
  let w := (add_task 0 "A" None None None init).2 in
  let w' := (update_task 1 None NotProvided NotProvided (Provided (Some "work,,home"%string)) w).2 in
  (read w'.(objs) 0).(tags) = ["work"; "home"]%string.
Proof. vm_compute. reflexivity. Qed.

(** * Further properties of the code *)

Lemma lstrip_idem s : lstrip (lstrip s) = lstrip s.
Proof.
  induction s as [|c s IH]; simpl; [done|].
  destruct (is_space c) eqn:E; [done|]. simpl. by rewrite E.
Qed.

Lemma lstrip_length s : (String.length (lstrip s) <= String.length s)%nat.
Proof. induction s as [|c s IH]; simpl; [lia|]. destruct (is_space c); simpl; lia. Qed.

Lemma rstrip_cons c x :
  rstrip (String c x) =
  match rstrip x with
  | EmptyString => if is_space c then EmptyString else String c EmptyString
  | r => String c r
  end.
Proof. reflexivity. Qed.

Lemma rstrip_idem s : rstrip (rstrip s) = rstrip s.
Proof.
  induction s as [|c s IH]; [done|]. rewrite (rstrip_cons c s).
  destruct (rstrip s) as [|a r] eqn:E.
  - destruct (is_space c) eqn:Ec; [done|]. simpl. by rewrite Ec.
  - rewrite rstrip_cons, IH. done.
Qed.

Lemma lstrip_rstrip s : lstrip s = s -> lstrip (rstrip s) = rstrip s.
Proof.
  destruct s as [|c x]; [done|].
  change (lstrip (String c x)) with (if is_space c then lstrip x else String c x).
  destruct (is_space c) eqn:Ec.
  - intros H. pose proof (lstrip_length x) as Hl. rewrite H in Hl. simpl in Hl. lia.
  - intros _. rewrite rstrip_cons.
    destruct (rstrip x); rewrite ?Ec; simpl; rewrite ?Ec; done.
Qed.

Lemma strip_idem s : strip (strip s) = strip s.
Proof.
  unfold strip. rewrite (lstrip_rstrip (lstrip s)) by apply lstrip_idem.
  apply rstrip_idem.
Qed.

(** X1. [validate_title] rejects a title that strips to the empty string
    with the message "Title cannot be empty" and otherwise returns the
    stripped title; a title it returns is already stripped and validates to
    itself. *)
Theorem validate_title_normalises title :
  (strip title = EmptyString ->
   validate_title title = Err (InvalidInput "Title cannot be empty")) /\
  (strip title <> EmptyString -> validate_title title = Ok (strip title)) /\
  (forall t, validate_title title = Ok t -> strip t = t /\ validate_title t = Ok t).
Proof.
  unfold validate_title. pose proof (strip_idem title) as Hi.
  destruct (strip title) as [|c r] eqn:E.
  - split; [done|]. split; [done|]. intros t [=].
  - split; [discriminate|]. split; [done|]. intros t [= <-].
    rewrite Hi. done.
Qed.

(** X2. [validate_priority] accepts exactly the three names "low", "med"
    and "high", each for its own priority; any other string is rejected
    with a message that quotes it and lists the choices. *)
Theorem validate_priority_choices s :
  (forall p, validate_priority (Some s) = Ok (Some p) <-> s = priority_name p) /\
  (~ In s ["low"; "med"; "high"]%string ->
   validate_priority (Some s)
   = Err (InvalidInput ("Invalid priority: " ++ s ++ ". Must be one of: low, med, high"))).
Proof.
  unfold validate_priority.
  destruct (String.eqb_spec s "low") as [->|H1];
  [|destruct (String.eqb_spec s "med") as [->|H2];
  [|destruct (String.eqb_spec s "high") as [->|H3]]].
  - split; [|simpl; tauto]. intros []; simpl; split; congruence.
  - split; [|simpl; tauto]. intros []; simpl; split; congruence.
  - split; [|simpl; tauto]. intros []; simpl; split; congruence.
  - split; [|done]. intros []; simpl; split; congruence.
Qed.

(** *** Tags *)

Lemma no_char_app c a b : no_char c (a ++ b) = no_char c a && no_char c b.
Proof. induction a as [|x a IH]; simpl; [done|]. by rewrite IH, andb_assoc. Qed.

Lemma lstrip_suffix s : exists p, s = (p ++ lstrip s)%string.
Proof.
  induction s as [|c s [p IH]]; [by exists EmptyString|]. simpl.
  destruct (is_space c); [exists (String c p); simpl; by f_equal|].
  by exists EmptyString.
Qed.

Lemma rstrip_prefix s : exists q, s = (rstrip s ++ q)%string.
Proof.
  induction s as [|c s [q IH]]; [by exists EmptyString|]. rewrite rstrip_cons.
  destruct (rstrip s) as [|a r] eqn:E.
  - destruct (is_space c); [by exists (String c s)|]. exists s. done.
  - exists q. simpl. by f_equal.
Qed.

Lemma no_char_strip c s : no_char c s = true -> no_char c (strip s) = true.
Proof.
  intros H. unfold strip.
  destruct (lstrip_suffix s) as [p Hp]. rewrite Hp, no_char_app in H.
  apply andb_prop in H as [_ H].
  destruct (rstrip_prefix (lstrip s)) as [q Hq]. rewrite Hq, no_char_app in H.
  by apply andb_prop in H as [H _].
Qed.

Lemma split_comma_pieces s x : In x (split_comma s) -> no_char "," x = true.
Proof.
  revert x. induction s as [|c s IH]; intros x; simpl.
  - intros [<-|[]]. done.
  - destruct (split_comma s) as [|piece rest] eqn:E; [done|].
    destruct (Ascii.eqb c ",") eqn:Ec; simpl.
    + intros [<-|Hx]; [done|]. by apply IH.
    + intros [<-|Hx]; [|apply IH; by right].
      simpl. rewrite Ec. simpl. apply IH. by left.
Qed.

(** X3. Every tag [parse_tags] returns is non-empty, has no surrounding
    whitespace and contains no comma. *)
Theorem parse_tags_normalised tags_str t :
  In t (parse_tags tags_str) ->
  t <> EmptyString /\ strip t = t /\ no_char "," t = true.
Proof.
  destruct tags_str as [s|]; simpl; [|done].
  intros H. apply filter_In in H as [Hm Hne].
  apply in_map_iff in Hm as (x & <- & Hx).
  split; [destruct (String.eqb_spec (strip x) EmptyString); done|].
  split; [apply strip_idem|]. apply no_char_strip. by apply (split_comma_pieces s).
Qed.

Lemma split_comma_ne s : split_comma s <> [].
Proof.
  induction s as [|c s IH]; simpl; [done|].
  destruct (split_comma s); [done|]. by destruct (Ascii.eqb c ",").
Qed.

Lemma split_comma_nc a : no_char "," a = true -> split_comma a = [a].
Proof.
  induction a as [|c a IH]; simpl; [done|].
  intros H. apply andb_prop in H as [Hc Ha]. rewrite IH by done.
  by destruct (Ascii.eqb c ",").
Qed.

Lemma split_comma_app a b :
  no_char "," a = true -> split_comma (a ++ String "," b) = a :: split_comma b.
Proof.
  induction a as [|c a IH]; simpl.
  - intros _. destruct (split_comma b) eqn:E; [by apply split_comma_ne in E|]. done.
  - intros H. apply andb_prop in H as [Hc Ha]. rewrite IH by done.
    by destruct (Ascii.eqb c ",").
Qed.

Lemma join_cons2 sep x y r : join sep (x :: y :: r) = (x ++ sep ++ join sep (y :: r))%string.
Proof. reflexivity. Qed.

Lemma split_join ts :
  ts <> [] -> List.Forall (fun t => no_char "," t = true) ts -> split_comma (join "," ts) = ts.
Proof.
  induction ts as [|t ts IH]; [done|]. intros _ Hf.
  apply List.Forall_cons_iff in Hf as [Ht Hf].
  destruct ts as [|t' ts'].
  - simpl. by apply split_comma_nc.
  - rewrite join_cons2. change ("," ++ join "," (t' :: ts'))%string
      with (String "," (join "," (t' :: ts'))).
    rewrite split_comma_app by done. f_equal. by apply IH.
Qed.

(** X4. Tags that are non-empty, stripped and comma-free survive a round
    trip: joining them with "," (as [format_task_line] prints them) and
    parsing the result with [parse_tags] gives the same list back. *)
Theorem parse_tags_join ts :
  List.Forall (fun t => t <> EmptyString /\ strip t = t /\ no_char "," t = true) ts ->
  parse_tags (Some (join "," ts)) = ts.
Proof.
  intros Hf. destruct ts as [|t ts]; [reflexivity|]. unfold parse_tags.
  rewrite split_join; [|done|].
  2: { eapply List.Forall_impl; [|exact Hf]. simpl. tauto. }
  clear -Hf. induction Hf as [|x l [Hx [Hs _]] _ IH]; [done|]. simpl.
  rewrite Hs. destruct (String.eqb_spec x EmptyString); [done|]. simpl. by f_equal.
Qed.

Lemma dict_get_del_eq k d : dict_get k (dict_del k d) = None.
Proof.
  induction d as [|[k' v] d IH]; [done|]. unfold dict_del in *. simpl.
  destruct (Z.eqb_spec k k'); simpl; [done|].
  destruct (Z.eqb_spec k k'); [lia|done].
Qed.

Lemma dict_get_del_ne k k' d : k' <> k -> dict_get k' (dict_del k d) = dict_get k' d.
Proof.
  intros Hne. induction d as [|[k0 v] d IH]; [done|]. unfold dict_del in *. simpl.
  destruct (Z.eqb_spec k k0); simpl.
  - subst. destruct (Z.eqb_spec k' k0); [lia|done].
  - by rewrite IH.
Qed.

(** X5. [delete] of a missing id raises NotFound and changes nothing; of a
    present id it succeeds, after which [get] of that id raises NotFound,
    every other id maps to what it mapped to before, and the objects and
    the id counter are untouched. *)
Theorem delete_removes_entry w task_id :
  match dict_get task_id w.(tasks) with
  | None => delete task_id w = (Err (NotFound task_id), w)
  | Some _ =>
      let w' := (delete task_id w).2 in
      (delete task_id w).1 = Ok tt /\ w'.(objs) = w.(objs) /\
      w'.(next_id) = w.(next_id) /\
      get task_id w' = (Err (NotFound task_id), w') /\
      (forall k, k <> task_id -> dict_get k w'.(tasks) = dict_get k w.(tasks))
  end.
Proof.
  unfold delete, bind, gets, modify, raise. simpl.
  destruct (dict_get task_id (tasks w)) eqn:E; [|done]. simpl.
  split; [done|]. split; [done|]. split; [done|]. split.
  - unfold get, bind, gets, raise. simpl. by rewrite dict_get_del_eq.
  - intros k Hk. by apply dict_get_del_ne.
Qed.

(** X6. [list_all] never fails nor changes the state, and returns exactly
    the stored tasks that pass the status filter and the case-insensitive
    tag filter; it lists each stored object at most once. *)
Theorem list_all_membership w sf tag sort :
  exists ls, list_all sf tag sort w = (Ok ls, w) /\
  (forall l, In l ls <->
     In l (map snd w.(tasks)) /\ status_matches sf (read w.(objs) l).(status)
     /\ tag_matches tag (read w.(objs) l)) /\
  (List.NoDup (map snd w.(tasks)) -> List.NoDup ls).
Proof.
  destruct (list_all_result w sf tag sort) as (ls & Hr & ->).
  eexists. split; [exact Hr|].
  set (h := w.(objs)). set (ts := map snd w.(tasks)).
  set (ts1 := match sf with
              | FAll => ts
              | FOpen => List.filter (fun l => status_eqb (status_of (read h l)) Open) ts
              | FDone => List.filter (fun l => status_eqb (status_of (read h l)) Done) ts
              end).
  assert (H1 : forall l, In l ts1 <-> In l ts /\ status_matches sf (read h l).(status)).
  { intros l. subst ts1. destruct sf; simpl; [tauto| |];
      rewrite filter_In, status_eqb_eq; unfold status_of; tauto. }
  assert (N1 : List.NoDup ts -> List.NoDup ts1).
  { subst ts1. destruct sf; [done| |]; apply List.NoDup_filter. }
  set (ts2 := match tag with
              | None => fun ts => ts
              | Some tg => List.filter (fun l => has_tag (lower tg) (read h l))
              end ts1).
  assert (H2 : forall l, In l ts2 <-> In l ts1 /\ tag_matches tag (read h l)).
  { intros l. subst ts2. destruct tag as [tg|]; simpl; [|tauto].
    rewrite filter_In, has_tag_iff. tauto. }
  assert (N2 : List.NoDup ts1 -> List.NoDup ts2).
  { subst ts2. destruct tag; [apply List.NoDup_filter|done]. }
  split.
  - intros l. split.
    + intros Hin. apply (Permutation_in _ (sort_tasks_perm h ts2 sort)) in Hin.
      apply H2 in Hin as [Hin Ht]. apply H1 in Hin. tauto.
    + intros (Hl & Hs & Ht).
      apply (Permutation_in _ (Permutation_sym (sort_tasks_perm h ts2 sort))).
      apply H2. split; [apply H1|]; tauto.
  - intros Hnd. eapply Permutation_NoDup; [symmetry; apply sort_tasks_perm|].
    by apply N2, N1.
Qed.

Lemma created_key_before a b :
  lex_ltb (created_key b) (created_key a) = false -> created_before a b.
Proof. unfold created_key, created_before. simpl. intros H. zcmp_simpl; try discriminate; lia. Qed.

(** X7. With [sort="created"], [list_all] returns the tasks ordered by
    creation time, ties broken by increasing id. *)
Theorem list_created_order w sf tag :
  exists ls, list_all sf tag SCreated w = (Ok ls, w) /\
  StronglySorted (fun a b => created_before (read w.(objs) a) (read w.(objs) b)) ls.
Proof.
  destruct (list_all_result w sf tag SCreated) as (ls & Hr & ->).
  eexists. split; [exact Hr|]. simpl.
  eapply StronglySorted_weaken; [|apply sorted_by_sorted].
  intros a b. apply created_key_before.
Qed.

Lemma lex_ltb_total a b : lex_ltb a b = false -> lex_ltb b a = false -> a = b.
Proof.
  revert b. induction a as [|x a IH]; intros [|y b]; simpl; try done.
  intros H1 H2. zcmp; try discriminate. f_equal; [lia|]. by apply IH.
Qed.

Lemma StronglySorted_unique {A} (R : A -> A -> Prop) (l1 l2 : list A) :
  (forall a b, In a l1 -> In b l1 -> R a b -> R b a -> a = b) ->
  StronglySorted R l1 -> StronglySorted R l2 -> Permutation l1 l2 -> l1 = l2.
Proof.
  revert l2. induction l1 as [|a l1 IH]; intros l2 Hanti H1 H2 Hp.
  - symmetry. by apply Permutation_nil.
  - destruct l2 as [|b l2]; [apply Permutation_length in Hp; discriminate|].
    apply StronglySorted_inv in H1 as [H1 F1].
    apply StronglySorted_inv in H2 as [H2 F2].
    assert (a = b) as <-.
    { destruct (Permutation_in a Hp (or_introl eq_refl)) as [->|Ha]; [done|].
      destruct (Permutation_in b (Permutation_sym Hp) (or_introl eq_refl)) as [->|Hb];
        [done|].
      apply Hanti; [by left|by right| |].
      - by apply (proj1 (List.Forall_forall _ _) F1).
      - by apply (proj1 (List.Forall_forall _ _) F2). }
    f_equal. apply IH; [|done|done|by apply Permutation_cons_inv in Hp].
    intros x y Hx Hy. apply Hanti; by right.
Qed.

Lemma sorted_by_unique k ts1 ts2 :
  (forall a b, In a ts1 -> In b ts1 -> k a = k b -> a = b) ->
  Permutation ts1 ts2 -> sorted_by k ts1 = sorted_by k ts2.
Proof.
  intros Hinj Hp. apply (StronglySorted_unique (key_le k));
    [|apply sorted_by_sorted|apply sorted_by_sorted|].
  - intros a b Ha Hb Hab Hba.
    apply (Permutation_in _ (sorted_by_perm k ts1)) in Ha, Hb.
    apply Hinj; [done|done|]. symmetry. by apply lex_ltb_total.
  - rewrite (sorted_by_perm k ts1), (sorted_by_perm k ts2). done.
Qed.

Lemma NoDup_map_inj {A B} (f : A -> B) l a b :
  List.NoDup (map f l) -> In a l -> In b l -> f a = f b -> a = b.
Proof.
  induction l as [|x l IH]; simpl; [done|].
  intros Hnd Ha Hb Hf. apply NoDup_cons_iff in Hnd as [Hx Hnd].
  destruct Ha as [<-|Ha], Hb as [<-|Hb]; try done.
  - exfalso. apply Hx. rewrite Hf. by apply in_map.
  - exfalso. apply Hx. rewrite <- Hf. by apply in_map.
  - by apply IH.
Qed.

Lemma sort_key_id (k : Task -> list Z) t1 t2 :
  (forall t, List.last (k t) 0 = t.(id)) -> k t1 = k t2 -> t1.(id) = t2.(id).
Proof. intros Hk H. rewrite <- (Hk t1), <- (Hk t2). by rewrite H. Qed.

(** X8. When the tasks have distinct ids, [_sort_tasks] gives the same list
    whatever order its input came in, for each of the three sort keys. *)
Theorem sort_tasks_order_independent h ts1 ts2 sort :
  List.NoDup (map (fun l => (read h l).(id)) ts1) -> Permutation ts1 ts2 ->
  sort_tasks h ts1 sort = sort_tasks h ts2 sort.
Proof.
  intros Hnd Hp.
  assert (Hinj : forall (k : Task -> list Z), (forall t, List.last (k t) 0 = t.(id)) ->
            forall a b, In a ts1 -> In b ts1 -> k (read h a) = k (read h b) -> a = b).
  { intros k Hk a b Ha Hb Hab. eapply (NoDup_map_inj _ ts1); [exact Hnd|done|done|].
    simpl. by apply (sort_key_id k). }
  destruct sort; simpl; apply sorted_by_unique; try done; apply Hinj.
  - done.
  - intros t. unfold due_key. by destruct (due_date t).
  - done.
Qed.

(** X9. In a reachable state, [add_task] validates the title first, then
    the due date, then the priority, and raises the first error with the
    state unchanged; if all are valid it creates one new object with the
    next id, the stripped title, status "open", the current time and the
    parsed fields and tags, registers it under that id (so [get] finds it),
    advances the counter and leaves the existing objects as they were. *)
Theorem add_task_outcome now title due priority tags w :
  reachable w ->
  match validate_title title, parse_due_date due, validate_priority priority with
  | Ok t, Ok d, Ok p =>
      exists w', add_task now title due priority tags w = (Ok (length w.(objs)), w') /\
        w'.(tasks) = w.(tasks) ++ [(w.(next_id), length w.(objs))] /\
        w'.(next_id) = w.(next_id) + 1 /\
        read w'.(objs) (length w.(objs))
          = mkTask w.(next_id) t Open now d p (parse_tags tags) /\
        get w.(next_id) w' = (Ok (length w.(objs)), w') /\
        (forall l, (l < length w.(objs))%nat -> read w'.(objs) l = read w.(objs) l)
  | Err e, _, _ | Ok _, Err e, _ | Ok _, Ok _, Err e =>
      add_task now title due priority tags w = (Err e, w)
  end.
Proof.
  intros Hr. pose proof (reachable_wf w Hr) as Hw.
  unfold add_task, bind, lift, ret, raise.
  destruct (validate_title title) as [t|e]; [|done].
  destruct (parse_due_date due) as [d|e]; [|done].
  destruct (validate_priority priority) as [p|e]; [|done].
  rewrite add_spec.
  assert (Hfresh : ~ In w.(next_id) (map fst w.(tasks))).
  { destruct Hw as (_ & _ & Hin). intros Hk.
    apply in_map_iff in Hk as ([k l] & Hk & Hkl). simpl in Hk. subst.
    destruct (Hin _ _ Hkl) as (_ & _ & Hlt & _). lia. }
  pose proof (wf_add w t now d p (Some (parse_tags tags)) Hw) as Hw'.
  rewrite add_spec in Hw'. cbn [snd] in Hw'.
  eexists. split; [reflexivity|]. simpl.
  rewrite dict_set_new by done. split; [done|]. split; [done|].
  split; [apply read_app_last|]. split.
  - unfold get, bind, gets, ret. simpl.
    destruct Hw' as (_ & Hnd & _). simpl in Hnd. rewrite dict_set_new in Hnd by done.
    rewrite (In_dict_get _ (length (objs w))); [done|done|].
    apply in_or_app. right. by left.
  - intros l Hl. by apply read_app_lt.
Qed.

Lemma validate_title_err t e : validate_title t = Err e -> exists m, e = InvalidInput m.
Proof. unfold validate_title. destruct (strip t); intros [=]; eauto. Qed.

Lemma parse_due_date_err s e : parse_due_date s = Err e -> exists m, e = InvalidInput m.
Proof. unfold parse_due_date. destruct s as [s|]; [destruct (fromisoformat s)|]; intros [=]; eauto. Qed.

Lemma validate_priority_err s e : validate_priority s = Err e -> exists m, e = InvalidInput m.
Proof.
  unfold validate_priority. destruct s as [s|]; [|done].
  repeat case_match; intros [=]; eauto.
Qed.

Lemma update_task_fail w task_id title due priority tags e w' :
  update_task task_id title due priority tags w = (Err e, w') ->
  w' = w /\
  match e with
  | InvalidInput m =>
      forall k, update_task k title due priority tags w = (Err (InvalidInput m), w)
  | NotFound k => k = task_id /\ dict_get task_id w.(tasks) = None
  end.
Proof.
  unfold update_task, bind, lift, lift_arg, ret, raise.
  destruct title as [t|]; [destruct (validate_title t) as [vt|et] eqn:Et|];
  (destruct due as [|vd]; [|destruct (parse_due_date vd) as [dd|ed] eqn:Ed]);
  (destruct priority as [|vp]; [|destruct (validate_priority vp) as [pp|ep] eqn:Ep]);
  destruct tags; intros H; simpl in *;
  repeat match goal with
  | H : validate_title _ = Err _ |- _ => apply validate_title_err in H as [? ->]
  | H : parse_due_date _ = Err _ |- _ => apply parse_due_date_err in H as [? ->]
  | H : validate_priority _ = Err _ |- _ => apply validate_priority_err in H as [? ->]
  end;
  first
  [ injection H as <- <-; split; [done|]; intros k; reflexivity
  | rewrite update_spec in H; destruct (dict_get task_id (tasks w)) eqn:E;
    [discriminate|injection H as <- <-; done] ].
Qed.

(** X10. A failed [update_task] leaves the state unchanged.  A validation
    error does not depend on the id (it is raised before the lookup, for
    any id); NotFound names the requested id and only arises when that id
    is absent. *)
Theorem update_task_errors w task_id title due priority tags e w' :
  update_task task_id title due priority tags w = (Err e, w') ->
  w' = w /\
  match e with
  | InvalidInput m =>
      forall k, update_task k title due priority tags w = (Err (InvalidInput m), w)
  | NotFound k => k = task_id /\ dict_get task_id w.(tasks) = None
  end.
Proof. apply update_task_fail. Qed.

Lemma filter_all_false {A} (f : A -> bool) l :
  (forall x, In x l -> f x = false) -> List.filter f l = [].
Proof.
  induction l as [|x l IH]; simpl; [done|]. intros H.
  rewrite H by (by left). apply IH. intros y Hy. apply H. by right.
Qed.

(** X11. [clear_done] is idempotent: a second call right after the first
    removes nothing, returns 0 and leaves the state as it is. *)
Theorem clear_done_twice w :
  let w1 := (clear_done w).2 in clear_done w1 = (Ok 0, w1).
Proof.
  simpl. unfold clear_done, bind, gets, modify, ret. simpl.
  assert (Hd : done_ids_of (mkWorld (objs w)
             (fold_left (fun d tid => dict_del tid d) (done_ids_of w) (tasks w))
             (next_id w)) = []).
  { unfold done_ids_of at 1. simpl. rewrite fold_dict_del.
    rewrite filter_filter_andb, filter_all_false; [done|].
    intros [k l] Hin. simpl. unfold done_ids_of.
    destruct (status_eqb (status (read (objs w) l)) Done) eqn:Es;
      [|by rewrite andb_false_r].
    rewrite andb_true_r. apply negb_false_iff. apply existsb_exists.
    exists k. split; [|apply Z.eqb_refl].
    apply in_map_iff. exists (k, l). split; [done|]. by apply filter_In. }
  rewrite Hd. simpl. done.
Qed.

Lemma run_command_fail now c w e w' :
  run_command now c w = (Err e, w') ->
  w' = w /\
  match e with
  | InvalidInput _ =>
      (exists t d p g, c = CmdAdd t d p g) \/ (exists k t d p g, c = CmdUpdate k t d p g)
  | NotFound k => command_id c = Some k /\ dict_get k w.(tasks) = None
  end.
Proof.
  destruct c as [t d p g|s g o|k|k|k t d p g|k|]; simpl.
  - unfold cmd_add, add_task, bind, lift, ret, raise.
    destruct (validate_title t) as [vt|et] eqn:Et;
      [|intros [= <- <-]; apply validate_title_err in Et as [m ->]; split; [done|]; left; eauto].
    destruct (parse_due_date d) as [vd|ed] eqn:Ed;
      [|intros [= <- <-]; apply parse_due_date_err in Ed as [m ->]; split; [done|]; left; eauto].
    destruct (validate_priority p) as [vp|ep] eqn:Ep;
      [|intros [= <- <-]; apply validate_priority_err in Ep as [m ->]; split; [done|]; left; eauto].
    rewrite add_spec. done.
  - done.
  - unfold cmd_done, mark_done, bind. rewrite update_spec.
    destruct (dict_get k (tasks w)) eqn:E; [done|]. intros [= <- <-]. done.
  - unfold cmd_reopen, reopen_task, bind. rewrite update_spec.
    destruct (dict_get k (tasks w)) eqn:E; [done|]. intros [= <- <-]. done.
  - unfold cmd_update at 1, bind at 1.
    destruct (update_task k t (cli_arg d) (cli_arg p) (cli_arg g) w) as [[l|e'] w1] eqn:E;
      [done|].
    intros [= <- <-]. apply update_task_fail in E as [-> He]. split; [done|].
    destruct e' as [m|k']; [right; do 5 eexists; reflexivity|destruct He as [-> ?]; done].
  - unfold cmd_delete, delete_task, delete, bind, gets, raise. simpl.
    destruct (dict_get k (tasks w)) eqn:E; [done|]. intros [= <- <-]. done.
  - done.
Qed.

(** X12. For a task subcommand, [main] either exits with 0, prints
    exactly one message on stdout (the handler's single [print]) and
    nothing on stderr; or exits with 2 on a validation error (only [add]
    and [update] validate), printing "Error: " and the message on stderr
    and leaving the state unchanged; or exits with 3 when the command's
    task id is not stored, printing "Error: Task with id N not found" on
    stderr, again with the state unchanged.  The [shell] and [menu]
    subcommands hand over to [run_shell] and leave the global service as
    it is. *)
Theorem main_exit_codes now c w :
  main now CmdShell w = RunShell w /\
  match main now (CmdTask c) w with
  | RunShell _ => False
  | Exit code out err w' =>
      (code = EXIT_SUCCESS /\ err = [] /\
       exists line, out = [line] /\ run_command now c w = (Ok line, w'))
      \/ (code = EXIT_VALIDATION_ERROR /\ out = [] /\ w' = w /\
          (exists m, err = [("Error: " ++ m)%string] /\
                     run_command now c w = (Err (InvalidInput m), w)) /\
          ((exists t d p g, c = CmdAdd t d p g) \/ (exists k t d p g, c = CmdUpdate k t d p g)))
      \/ (code = EXIT_NOT_FOUND /\ out = [] /\ w' = w /\
          exists k, command_id c = Some k /\ dict_get k w.(tasks) = None /\
                    err = [("Error: Task with id " ++ str_int k ++ " not found")%string])
  end.
Proof.
  split; [done|].
  unfold main. destruct (run_command now c w) as [[line|e] w'] eqn:E.
  - left. eauto.
  - pose proof (run_command_fail _ _ _ _ _ E) as [-> He].
    destruct e as [m|k]; simpl; right.
    + left. repeat split; eauto.
    + right. destruct He. repeat split; eauto.
Qed.

Lemma parse_due_date_some s d : parse_due_date (Some s) = Ok d -> d <> None.
Proof. unfold parse_due_date. by destruct (fromisoformat s); intros [= <-]. Qed.

Lemma validate_priority_some s p : validate_priority (Some s) = Ok p -> p <> None.
Proof. unfold validate_priority. repeat case_match; by intros [= <-]. Qed.

(** X13. The CLI's [update] can never clear a due date or a priority (an
    omitted option leaves the field alone and a given one must parse to a
    value), while [--tag ""] clears the tags. *)
Theorem cli_update_fields task_id title due prio tag w out w' l :
  dict_get task_id w.(tasks) = Some l ->
  cmd_update task_id title due prio tag w = (Ok out, w') ->
  ((read w.(objs) l).(due_date) <> None -> (read w'.(objs) l).(due_date) <> None) /\
  ((read w.(objs) l).(priority) <> None -> (read w'.(objs) l).(priority) <> None) /\
  (tag = Some ""%string -> (read w'.(objs) l).(tags) = []).
Proof.
  intros Hk. unfold cmd_update, bind at 1.
  unfold update_task, bind, lift, lift_arg, ret, raise.
  destruct title as [t|]; [destruct (validate_title t) as [vt|et]|];
  (destruct due as [vd|]; cbn [cli_arg];
     [destruct (parse_due_date (Some vd)) as [dd|ed] eqn:Ed|]);
  (destruct prio as [vp|]; cbn [cli_arg];
     [destruct (validate_priority (Some vp)) as [pp|ep] eqn:Ep|]);
  destruct tag as [vg|]; cbn [cli_arg]; simpl; rewrite ?update_spec, ?Hk; simpl;
  intros H; try discriminate; injection H as _ <-; simpl;
  (destruct (decide (l < length (objs w))%nat) as [Hl|Hl];
   [rewrite read_write_eq by done; unfold update_fields; simpl;
    repeat match goal with
    | H : parse_due_date _ = Ok _ |- _ => apply parse_due_date_some in H
    | H : validate_priority _ = Ok _ |- _ => apply validate_priority_some in H
    end;
    repeat split; intros; first [done | congruence | by simplify_eq]
   |rewrite write_ge by lia; rewrite read_ge by lia; repeat split; done]).
Qed.

Lemma substring_0_length s : substring 0 (String.length s) s = s.
Proof. induction s; simpl; by f_equal. Qed.

Lemma drop_str_dashes k : drop_str 2 ("--" ++ k) = k.
Proof.
  unfold drop_str. simpl. rewrite Nat.sub_0_r. apply substring_0_length.
Qed.

Lemma sdict_get_set k k' v d :
  sdict_get k (sdict_set k' v d) = if String.eqb k k' then Some v else sdict_get k d.
Proof.
  induction d as [|[k1 v1] d IH]; simpl.
  - done.
  - destruct (String.eqb_spec k' k1) as [->|Hne]; simpl.
    + destruct (String.eqb k k1); done.
    + destruct (String.eqb_spec k k1) as [->|Hne1].
      * destruct (String.eqb_spec k1 k'); [congruence|done].
      * done.
Qed.

Lemma prefix_empty s : String.prefix "" s = true.
Proof. by destruct s. Qed.

Lemma parse_options_loop_opt k v rest opts :
  String.prefix "-" v = false ->
  parse_options_loop (("--" ++ k)%string :: v :: rest) opts
  = parse_options_loop rest (sdict_set k v opts).
Proof.
  intros Hv. cbn [parse_options_loop]. rewrite Hv, drop_str_dashes.
  simpl. by rewrite prefix_empty.
Qed.

Lemma parse_options_loop_tokens kvs opts :
  List.Forall (fun kv => String.prefix "-" kv.2 = false) kvs ->
  parse_options_loop (opt_tokens kvs) opts
  = fold_left (fun d kv => sdict_set kv.1 kv.2 d) kvs opts.
Proof.
  revert opts. induction kvs as [|[k v] kvs IH]; intros opts Hf; [done|].
  apply List.Forall_cons_iff in Hf as [Hv Hf]. simpl in Hv.
  change (opt_tokens ((k, v) :: kvs)) with (("--" ++ k)%string :: v :: opt_tokens kvs).
  rewrite parse_options_loop_opt by done. simpl. by apply IH.
Qed.

Lemma sdict_get_app k d1 d2 :
  sdict_get k (d1 ++ d2) = match sdict_get k d1 with Some v => Some v | None => sdict_get k d2 end.
Proof.
  induction d1 as [|[k1 v1] d1 IH]; simpl; [done|]. by destruct (String.eqb k k1).
Qed.

Lemma sdict_get_fold k kvs d :
  sdict_get k (fold_left (fun d kv => sdict_set kv.1 kv.2 d) kvs d)
  = match sdict_get k (rev kvs) with Some v => Some v | None => sdict_get k d end.
Proof.
  revert d. induction kvs as [|[k1 v1] kvs IH]; intros d; simpl; [done|].
  rewrite IH, sdict_get_set, sdict_get_app.
  destruct (sdict_get k (rev kvs)); simpl; [done|]. by destruct (String.eqb k k1).
Qed.

Lemma sdict_get_none k d : ~ In k (map fst d) -> sdict_get k d = None.
Proof.
  induction d as [|[k1 v1] d IH]; simpl; [done|]. intros Hn.
  destruct (String.eqb_spec k k1); [subst; tauto|]. apply IH. tauto.
Qed.

Lemma sdict_get_in k v d : List.NoDup (map fst d) -> In (k, v) d -> sdict_get k d = Some v.
Proof.
  induction d as [|[k1 v1] d IH]; simpl; [done|].
  intros Hnd Hin. apply NoDup_cons_iff in Hnd as [Hk Hnd].
  destruct (String.eqb_spec k k1) as [->|Hne].
  - destruct Hin as [[= ->]|Hin]; [done|]. exfalso. apply Hk.
    apply in_map_iff. by exists (k1, v).
  - destruct Hin as [[= -> ->]|Hin]; [done|]. by apply IH.
Qed.

Lemma non_option_args_tokens kvs :
  List.Forall (fun kv => String.prefix "-" kv.2 = false) kvs ->
  get_non_option_args (opt_tokens kvs) = [].
Proof.
  induction kvs as [|[k v] kvs IH]; intros Hf; [done|].
  apply List.Forall_cons_iff in Hf as [Hv Hf]. simpl in Hv.
  change (opt_tokens ((k, v) :: kvs)) with (("--" ++ k)%string :: v :: opt_tokens kvs).
  cbn [get_non_option_args]. rewrite Hv. simpl. rewrite prefix_empty. by apply IH.
Qed.

(** X15. For options written as [--key value] pairs with distinct keys and
    values that do not start with "-", [_parse_options] maps each key to
    its value and no other key to anything, and [_get_non_option_args]
    finds no positional argument among them. *)
Theorem parse_options_roundtrip kvs :
  List.Forall (fun kv => String.prefix "-" kv.2 = false) kvs ->
  List.NoDup (map fst kvs) ->
  (forall k v, In (k, v) kvs -> sdict_get k (parse_options (opt_tokens kvs)) = Some v) /\
  (forall k, ~ In k (map fst kvs) -> sdict_get k (parse_options (opt_tokens kvs)) = None) /\
  get_non_option_args (opt_tokens kvs) = [].
Proof.
  intros Hf Hnd. unfold parse_options. rewrite parse_options_loop_tokens by done.
  split; [|split; [|by apply non_option_args_tokens]].
  - intros k v Hin. rewrite sdict_get_fold.
    rewrite (sdict_get_in k v); [done| |by apply in_rev in Hin].
    rewrite map_rev. by apply NoDup_rev.
  - intros k Hk. rewrite sdict_get_fold, sdict_get_none; [done|].
    rewrite map_rev. by rewrite <- in_rev.
Qed.

Lemma get_non_option_args_ind (P : list string -> Prop) :
  (forall args, (forall args', (length args' < length args)%nat -> P args') -> P args) ->
  forall args, P args.
Proof.
  intros H args. remember (length args) as n eqn:En.
  revert args En. induction n as [n IH] using lt_wf_ind.
  intros args ->. apply H. intros args' Hl. by apply (IH (length args')).
Qed.

(** X16. [_get_non_option_args] returns a subsequence of its arguments that
    contains no "--" option and no two-character "-x" flag; when no
    argument starts with "-", it returns the arguments unchanged. *)
Theorem non_option_args_shape args :
  sublist (get_non_option_args args) args /\
  List.Forall (fun a => String.prefix "--" a = false /\
                   (String.prefix "-" a && (String.length a =? 2)%nat) = false)
         (get_non_option_args args) /\
  (List.Forall (fun a => String.prefix "-" a = false) args -> get_non_option_args args = args).
Proof.
  induction args as [args IH] using get_non_option_args_ind.
  destruct args as [|a rest]; simpl.
  - split; [constructor|]. split; [constructor|done].
  - assert (Hdash : String.prefix "-" a = false -> String.prefix "--" a = false).
    { intros H. destruct a as [|c a]; [done|]. cbn [String.prefix] in *.
      destruct (Ascii.ascii_dec "-" c); [|done]. rewrite prefix_empty in H. discriminate. }
    destruct (String.prefix "--" a) eqn:E2.
    + assert (Hskip : forall r, (length r < S (length rest))%nat ->
                sublist (get_non_option_args r) r -> sublist r rest ->
                sublist (get_non_option_args r) (a :: rest)).
      { intros r _ H1 H2. apply sublist_cons. by transitivity r. }
      destruct rest as [|v rest'].
      * split; [apply sublist_cons; constructor|]. split; [constructor|].
        intros Hf. apply List.Forall_cons_iff in Hf as [Ha _].
        destruct (diff_true_false (Hdash Ha)).
      * destruct (negb (String.prefix "-" v)) eqn:Ev.
        -- destruct (IH rest' ltac:(simpl; lia)) as (Hs & Hf & _).
           split; [|split; [done|]].
           ++ apply sublist_cons. apply sublist_cons. done.
           ++ intros Hf'. apply List.Forall_cons_iff in Hf' as [Ha _].
              destruct (diff_true_false (Hdash Ha)).
        -- destruct (IH (v :: rest') ltac:(simpl; lia)) as (Hs & Hf & _).
           split; [by apply sublist_cons|split; [done|]].
           intros Hf'. apply List.Forall_cons_iff in Hf' as [Ha _].
           destruct (diff_true_false (Hdash Ha)).
    + destruct (IH rest ltac:(simpl; lia)) as (Hs & Hf & Hid).
      destruct (String.prefix "-" a && (String.length a =? 2)%nat) eqn:E1.
      * split; [by apply sublist_cons|split; [done|]].
        intros Hf'. apply List.Forall_cons_iff in Hf' as [Ha _].
        rewrite Ha in E1. discriminate.
      * split; [by apply sublist_skip|split; [by constructor|]].
        intros Hf'. apply List.Forall_cons_iff in Hf' as [Ha Hr]. by rewrite Hid.
Qed.

Lemma shell_eta (s : Shell) : mkShell s.(repo) s.(input) s.(output) = s.
Proof. by destruct s. Qed.

Lemma sbind_ok {A B} (m : SM A) (f : A -> SM B) s x s' :
  m s = (SOk x, s') -> sbind m f s = f x s'.
Proof. intros H. unfold sbind. by rewrite H. Qed.

Lemma service_delete k s l :
  dict_get k s.(repo).(tasks) = Some l ->
  service (delete_task k) s = (SOk tt, mkShell (delete k s.(repo)).2 s.(input) s.(output)).
Proof.
  intros Hk. unfold service, delete_task.
  assert (E : delete k (repo s) = (Ok tt, (delete k (repo s)).2)).
  { unfold delete, bind, gets, modify. simpl. by rewrite Hk. }
  by rewrite E.
Qed.

Lemma service_clear s :
  service service_clear_done s
  = (SOk (Z.of_nat (length (done_ids_of s.(repo)))),
     mkShell (clear_done s.(repo)).2 s.(input) s.(output)).
Proof. reflexivity. Qed.

Lemma confirm_spec message s :
  confirm message s =
  let '(ln, more) := split_line s.(input) in
  (SOk (negb (String.eqb ln "") &&
        (String.eqb (lower (strip (rstrip_nl ln))) "y"
         || String.eqb (lower (strip (rstrip_nl ln))) "yes")),
   mkShell s.(repo) more (s.(output) ++ [(message ++ " [y/N]: ")%string])).
Proof.
  unfold confirm, prompt, sbind, sprint, readline, sret, sraise. simpl.
  destruct (split_line (input s)) as [ln more]. simpl.
  by destruct (String.eqb ln "").
Qed.

Lemma length_filter_map_snd (f : loc -> bool) (d : list (Z * loc)) :
  length (List.filter f (map snd d)) = length (map fst (List.filter (fun e => f e.2) d)).
Proof.
  induction d as [|[k l] d IH]; simpl; [done|]. destruct (f l); simpl; by rewrite IH.
Qed.

(** X17. The shell's [delete] with a valid id: a missing task raises
    NotFound and changes nothing; with [-f] or [--force] the task is
    deleted without reading input; otherwise it asks
    'Delete task N "title"? [y/N]: ' and deletes the task only if the next
    input line is "y" or "yes" (any case, surrounding whitespace ignored).
    Any other answer, or the end of the input, prints "Cancelled." and
    leaves the repository unchanged. *)
Theorem shell_delete_outcome a rest k s :
  int_of_str a = Some k ->
  let force := (sdict_has "f" (parse_options rest)
                || sdict_has "force" (parse_options rest))%bool in
  match dict_get k s.(repo).(tasks) with
  | None => shell_cmd_delete (a :: rest) s = (SErr (ServiceError (NotFound k)), s)
  | Some l =>
      let question := (("Delete task " ++ str_int k ++ " " ++ dq
                        ++ (read s.(repo).(objs) l).(title) ++ dq ++ "?") ++ " [y/N]: ")%string in
      let deleted := ("Deleted task " ++ str_int k)%string in
      let '(ln, more) := split_line s.(input) in
      let yes := (negb (String.eqb ln "") &&
                  (String.eqb (lower (strip (rstrip_nl ln))) "y"
                   || String.eqb (lower (strip (rstrip_nl ln))) "yes"))%bool in
      shell_cmd_delete (a :: rest) s =
        if force then (SOk tt, mkShell (delete k s.(repo)).2 s.(input) (s.(output) ++ [deleted]))
        else if yes then (SOk tt, mkShell (delete k s.(repo)).2 more
                                        (s.(output) ++ [question; deleted]))
        else (SOk tt, mkShell s.(repo) more (s.(output) ++ [question; "Cancelled."%string]))
  end.
Proof.
  intros Ha. cbn zeta.
  unfold shell_cmd_delete.
  rewrite (sbind_ok _ _ s (Some k) s) by (unfold parse_id; by rewrite Ha).
  cbn [tl].
  destruct (dict_get k (tasks (repo s))) as [l|] eqn:Hk.
  - rewrite (sbind_ok _ _ s l s)
      by (unfold service, get_task, get, bind, gets, ret; simpl; by rewrite Hk, shell_eta).
    rewrite (sbind_ok _ _ s (read s.(repo).(objs) l) s)
      by (unfold service, obj, gets; simpl; by rewrite shell_eta).
    destruct (split_line (input s)) as [ln more] eqn:Esp.
    destruct (sdict_has "f" (parse_options rest) || sdict_has "force" (parse_options rest))%bool.
    + rewrite (sbind_ok _ _ s true s) by done. simpl.
      rewrite (sbind_ok _ _ _ tt _) by (by apply (service_delete _ _ l)). done.
    + unfold sbind at 1. rewrite confirm_spec, Esp. simpl.
      destruct (negb (String.eqb ln "") && _)%bool; simpl.
      * rewrite (sbind_ok _ _ _ tt _) by (by apply (service_delete _ _ l)).
        unfold sprint. simpl. by rewrite <- app_assoc.
      * unfold sprint. simpl. by rewrite <- app_assoc.
  - unfold sbind at 1, service at 1, get_task, get, bind, gets, raise. simpl.
    by rewrite Hk, shell_eta.
Qed.

Lemma done_count w :
  exists ls, list_tasks FDone None SCreated w = (Ok ls, w) /\
             length ls = length (done_ids_of w).
Proof.
  eexists. split; [reflexivity|]. simpl.
  rewrite (Permutation_length (sorted_by_perm _ _)).
  unfold done_ids_of. apply length_filter_map_snd.
Qed.

(** X18. The shell's [clear]: with no done task it prints "No completed
    tasks to clear." and changes nothing; otherwise, with [-f]/[--force] or
    after a "y"/"yes" answer to "Clear N completed task(s)? [y/N]: ", it
    clears the done tasks and reports their number N; any other answer or
    the end of the input prints "Cancelled." and changes nothing. *)
Theorem shell_clear_outcome args s :
  let force := (sdict_has "f" (parse_options args)
                || sdict_has "force" (parse_options args))%bool in
  let n := Z.of_nat (length (done_ids_of s.(repo))) in
  let question := (("Clear " ++ str_int n ++ " completed task(s)?") ++ " [y/N]: ")%string in
  let cleared := ("Cleared " ++ str_int n ++ " completed task(s)")%string in
  let '(ln, more) := split_line s.(input) in
  let yes := (negb (String.eqb ln "") &&
              (String.eqb (lower (strip (rstrip_nl ln))) "y"
               || String.eqb (lower (strip (rstrip_nl ln))) "yes"))%bool in
  shell_cmd_clear args s =
    if n =? 0 then
      (SOk tt, mkShell s.(repo) s.(input) (s.(output) ++ ["No completed tasks to clear."%string]))
    else if force then
      (SOk tt, mkShell (clear_done s.(repo)).2 s.(input) (s.(output) ++ [cleared]))
    else if yes then
      (SOk tt, mkShell (clear_done s.(repo)).2 more (s.(output) ++ [question; cleared]))
    else (SOk tt, mkShell s.(repo) more (s.(output) ++ [question; "Cancelled."%string])).
Proof.
  cbn zeta. destruct (done_count (repo s)) as (ls & Hls & Hlen).
  unfold shell_cmd_clear. cbv zeta.
  rewrite (sbind_ok _ _ s ls s) by (unfold service; by rewrite Hls, shell_eta).
  cbn beta. rewrite Hlen.
  destruct (split_line (input s)) as [ln more] eqn:Esp.
  destruct (Z.of_nat (length (done_ids_of (repo s))) =? 0); [done|].
  destruct (sdict_has "f" (parse_options args) || sdict_has "force" (parse_options args))%bool.
  - rewrite (sbind_ok _ _ s true s) by done. cbn [negb].
    rewrite (sbind_ok _ _ _ _ _) by apply service_clear. done.
  - unfold sbind at 1. rewrite confirm_spec, Esp. cbn iota beta.
    destruct (negb (String.eqb ln "") && _)%bool; cbn [negb].
    + rewrite (sbind_ok _ _ _ _ _) by apply service_clear.
      unfold sprint. simpl. by rewrite <- app_assoc.
    + unfold sprint. simpl. by rewrite <- app_assoc.
Qed.

Lemma str_app_assoc (x y z : string) : ((x ++ y) ++ z = x ++ y ++ z)%string.
Proof. induction x; simpl; by f_equal. Qed.

Lemma str_app_nil_r (x : string) : (x ++ "")%string = x.
Proof. induction x; simpl; by f_equal. Qed.

Lemma str_length_app (x y : string) :
  String.length (x ++ y) = (String.length x + String.length y)%nat.
Proof. induction x; simpl; by f_equal. Qed.

Lemma zdigit_nat d : 0 <= d <= 9 -> nat_of_ascii (zdigit d) = Z.to_nat (48 + d).
Proof. intros Hd. unfold zdigit. rewrite nat_ascii_embedding by lia. done. Qed.

Lemma zdigit_is_digit d : 0 <= d <= 9 -> is_digit (zdigit d) = true.
Proof.
  intros Hd. unfold is_digit. rewrite zdigit_nat by done.
  apply andb_true_intro. split; apply Nat.leb_le; lia.
Qed.

Lemma zdigit_val d : 0 <= d <= 9 -> digit_val (zdigit d) = d.
Proof. intros Hd. unfold digit_val. rewrite zdigit_nat by done. lia. Qed.

Lemma zdigit_neq d c : 0 <= d <= 9 ->
  ((57 <? nat_of_ascii c) || (nat_of_ascii c <? 48))%nat = true ->
  Ascii.eqb (zdigit d) c = false.
Proof.
  intros Hd Hc. apply Ascii.eqb_neq. intros E. rewrite <- E, zdigit_nat in Hc by done.
  apply orb_true_iff in Hc as [Hc|Hc]; apply Nat.ltb_lt in Hc; lia.
Qed.

Lemma zdigit_not_space d : 0 <= d <= 9 -> is_space (zdigit d) = false.
Proof.
  intros Hd. unfold is_space. rewrite zdigit_nat by done.
  destruct (decide (d = 0)) as [->|]; [done|].
  destruct (decide (d = 1)) as [->|]; [done|].
  destruct (decide (d = 2)) as [->|]; [done|].
  destruct (decide (d = 3)) as [->|]; [done|].
  destruct (decide (d = 4)) as [->|]; [done|].
  destruct (decide (d = 5)) as [->|]; [done|].
  destruct (decide (d = 6)) as [->|]; [done|].
  destruct (decide (d = 7)) as [->|]; [done|].
  destruct (decide (d = 8)) as [->|]; [done|].
  assert (d = 9) as -> by lia. done.
Qed.

(** The digits [dec_digits] writes: decimal, without leading zeros, and read
    back by the digit scan of [int]. *)
Lemma dec_digits_spec f : forall m acc,
  (1 <= f)%nat -> 0 <= m < 10 ^ Z.of_nat f ->
  exists c ds,
    dec_digits f m acc = (String c ds ++ acc)%string /\
    (exists d, 0 <= d <= 9 /\ c = zdigit d) /\
    (String.length ds < f)%nat /\
    (ds = EmptyString \/ 10 ^ Z.of_nat (String.length ds) <= m) /\
    (forall a cnt p s, scan_digits (String c ds ++ s) a cnt p
       = scan_digits s (a * 10 ^ Z.of_nat (S (String.length ds)) + m)
                     (cnt + S (String.length ds)) (zdigit (m mod 10))).
Proof.
  induction f as [|f IH]; intros m acc Hf Hm; [lia|].
  cbn [dec_digits]. destruct (Z.ltb_spec m 10) as [Hlt|Hge].
  - exists (zdigit (m mod 10)), EmptyString. rewrite Z.mod_small by lia.
    split; [done|]. split; [exists m; split; [lia|done]|]. split; [simpl; lia|].
    split; [by left|]. intros a cnt p s. simpl.
    rewrite zdigit_is_digit, zdigit_val by lia. f_equal; lia.
  - assert (Hf' : (1 <= f)%nat).
    { destruct f; [|lia]. simpl in Hm. lia. }
    assert (Hm' : 0 <= m / 10 < 10 ^ Z.of_nat f).
    { split; [apply Z.div_pos; lia|]. apply Z.div_lt_upper_bound; [lia|].
      rewrite Nat2Z.inj_succ, Z.pow_succ_r in Hm by lia. lia. }
    destruct (IH (m / 10) (String (zdigit (m mod 10)) acc) Hf' Hm')
      as (c & ds & Hd & Hc & Hlen & Hlow & Hscan).
    exists c, (ds ++ String (zdigit (m mod 10)) EmptyString)%string.
    split; [rewrite Hd; simpl; by rewrite str_app_assoc|].
    split; [done|].
    rewrite str_length_app. simpl (String.length (String _ _)).
    split; [lia|]. split.
    + right. rewrite Nat2Z.inj_add, Z.pow_add_r by lia. simpl (10 ^ Z.of_nat 1).
      destruct Hlow as [->|Hlow]; simpl.
      * pose proof (Z.div_mod m 10). pose proof (Z.mod_pos_bound m 10). lia.
      * pose proof (Z.div_mod m 10). pose proof (Z.mod_pos_bound m 10). nia.
    + intros a cnt p s.
      replace (String c (ds ++ String (zdigit (m mod 10)) EmptyString) ++ s)%string
        with (String c ds ++ String (zdigit (m mod 10)) s)%string
        by (simpl; by rewrite str_app_assoc).
      rewrite Hscan. pose proof (Z.mod_pos_bound m 10). simpl.
      rewrite zdigit_is_digit, zdigit_val by lia.
      f_equal; [|lia].
      rewrite !Nat2Z.inj_succ, Nat2Z.inj_add, !Z.pow_succ_r by lia.
      pose proof (Z.div_mod m 10). simpl. rewrite Z.pow_add_r by lia. simpl. lia.
Qed.

Lemma str_int_fuel i :
  0 <= Z.abs i < 10 ^ Z.of_nat (S (Z.to_nat (Z.log2 (Z.abs i)))).
Proof.
  split; [lia|]. rewrite Nat2Z.inj_succ, Z2Nat.id by apply Z.log2_nonneg.
  destruct (Z.eq_dec (Z.abs i) 0) as [->|Hne]; [done|].
  destruct (Z.log2_spec (Z.abs i)) as [_ Hup]; [lia|].
  eapply Z.lt_le_trans; [exact Hup|].
  apply Z.pow_le_mono_l. lia.
Qed.

(** X19. [int] reads back what [str] writes: for every integer with at most
    4300 digits, [int(str(n)) = n], so a task id printed by the shell or
    the CLI is accepted by [_parse_id] as the same id. *)
Theorem int_of_str_str_int n :
  Z.abs n < 10 ^ Z.of_nat max_str_digits -> int_of_str (str_int n) = Some n.
Proof.
  intros Hbound. unfold str_int.
  destruct (dec_digits_spec (S (Z.to_nat (Z.log2 (Z.abs n)))) (Z.abs n) EmptyString
              ltac:(lia) (str_int_fuel n)) as (c & ds & Hd & (d & Hd9 & ->) & _ & Hlow & Hscan).
  rewrite Hd, str_app_nil_r.
  assert (Hlen : (S (String.length ds) <= max_str_digits)%nat).
  { destruct Hlow as [->|Hlow]; [unfold max_str_digits; simpl; lia|].
    destruct (Nat.le_gt_cases (S (String.length ds)) max_str_digits) as [|Hgt]; [done|].
    exfalso. assert (10 ^ Z.of_nat max_str_digits <= 10 ^ Z.of_nat (String.length ds)).
    { apply Z.pow_le_mono_r; lia. }
    lia. }
  assert (Hrun : forall sign,
    (match scan_digits (String (zdigit d) ds) 0 O "000" with
     | Some (v, digits, prev, rest) =>
         if Ascii.eqb prev "_" || (digits =? 0)%nat || (max_str_digits <? digits)%nat
         then None
         else if String.eqb (lstrip rest) "" then Some (sign * v) else None
     | None => None
     end) = Some (sign * Z.abs n)).
  { intros sign. pose proof (Hscan 0 O "000"%char EmptyString) as Hs.
    rewrite str_app_nil_r in Hs. rewrite Hs. simpl.
    rewrite zdigit_neq by (pose proof (Z.mod_pos_bound (Z.abs n) 10 ltac:(lia)); first [lia | reflexivity]).
    simpl. replace (max_str_digits <? S (String.length ds))%nat with false
      by (symmetry; apply Nat.ltb_ge; lia). done. }
  assert (Hu : Ascii.eqb (zdigit d) "_" = false) by (apply zdigit_neq; [done|reflexivity]).
  destruct (Z.ltb_spec n 0) as [Hneg|Hpos].
  - unfold int_of_str. cbn [lstrip].
    replace (is_space "-") with false by reflexivity.
    cbn -[scan_digits zdigit lstrip max_str_digits].
    rewrite Hu. rewrite Hrun. f_equal. lia.
  - unfold int_of_str. cbn [lstrip]. rewrite zdigit_not_space by done. cbn iota.
    rewrite (zdigit_neq d "+") by (done || reflexivity).
    rewrite (zdigit_neq d "-") by (done || reflexivity).
    cbn -[scan_digits zdigit lstrip max_str_digits].
    rewrite Hu. rewrite Hrun. f_equal. lia.
Qed.

Lemma count_char_app c x y :
  count_char c (x ++ y) = (count_char c x + count_char c y)%nat.
Proof. induction x as [|c' x IH]; simpl; [done|]. rewrite IH. lia. Qed.

Lemma count_char_no_char c s : no_char c s = true -> count_char c s = O.
Proof.
  induction s as [|c' s IH]; simpl; [done|].
  intros [H1 H2]%andb_true_iff. apply negb_true_iff in H1. rewrite H1. by apply IH.
Qed.

Lemma count_repeat_char c c' n : Ascii.eqb c' c = false -> count_char c (repeat_char n c') = O.
Proof. intros H. induction n; simpl; [done|]. by rewrite H, IHn. Qed.

Lemma count_nl_dec_digits f m acc :
  count_char "010" (dec_digits f m acc) = count_char "010" acc.
Proof.
  revert m acc. induction f as [|f IH]; intros m acc; simpl; [done|].
  assert (Hd : Ascii.eqb (zdigit (m mod 10)) "010" = false).
  { apply Ascii.eqb_neq. intros E. pose proof (Z.mod_pos_bound m 10 ltac:(lia)).
    pose proof (zdigit_code (m mod 10) ltac:(lia)) as Hc. rewrite E in Hc.
    change (nat_of_ascii "010") with 10%nat in Hc. lia. }
  destruct (m <? 10); [simpl; by rewrite Hd|]. rewrite IH. simpl. by rewrite Hd.
Qed.

Lemma count_nl_str_int i : count_char "010" (str_int i) = O.
Proof.
  unfold str_int. destruct (i <? 0); cbn [count_char]; by rewrite count_nl_dec_digits.
Qed.

Lemma count_nl_str_date d : count_char "010" (str_date d) = O.
Proof.
  unfold str_date, zfill. rewrite !count_char_app, !count_nl_str_int,
    !count_repeat_char by reflexivity. done.
Qed.

Lemma count_join_zero c sep xs :
  count_char c sep = O -> List.Forall (fun x => count_char c x = O) xs ->
  count_char c (join sep xs) = O.
Proof.
  intros Hsep. induction xs as [|x [|y xs] IH]; intros Hf; [done| |].
  - by apply List.Forall_cons_iff in Hf as [? _].
  - apply List.Forall_cons_iff in Hf as [Hx Hf].
    change (join sep (x :: y :: xs)) with (x ++ sep ++ join sep (y :: xs))%string.
    rewrite !count_char_app, Hx, Hsep, IH by done. done.
Qed.

Lemma count_join_nl xs :
  List.Forall (fun x => count_char "010" x = O) xs ->
  count_char "010" (join nl xs) = pred (length xs).
Proof.
  induction xs as [|x [|y xs] IH]; intros Hf; [done| |].
  - by apply List.Forall_cons_iff in Hf as [? _].
  - apply List.Forall_cons_iff in Hf as [Hx Hf].
    change (join nl (x :: y :: xs)) with (x ++ nl ++ join nl (y :: xs))%string.
    rewrite !count_char_app, Hx, IH by done. simpl. lia.
Qed.

Lemma count_nl_format_task_line t :
  no_char "010" t.(title) = true -> List.Forall (fun g => no_char "010" g = true) t.(tags) ->
  count_char "010" (format_task_line t) = O.
Proof.
  intros Ht Hg. unfold format_task_line, rjust, ljust.
  rewrite !count_char_app, !count_repeat_char by reflexivity.
  rewrite count_nl_str_int, (count_char_no_char _ _ Ht).
  assert (count_char "010" (if status_eqb (status t) Done then "[x]" else "[ ]")%string = O)
    as -> by (by destruct (status_eqb (status t) Done)).
  assert (count_char "010" (match priority t with Some p => priority_upper p | None => "-" end)%string = O)
    as -> by (by destruct (priority t) as [[]|]).
  assert (count_char "010" (match due_date t with Some d => str_date d | None => "-" end)%string = O)
    as -> by (destruct (due_date t); [apply count_nl_str_date|done]).
  destruct (tags t) as [|g gs] eqn:E; [simpl; lia|].
  rewrite count_join_zero; [simpl; lia|done|].
  eapply List.Forall_impl; [|exact Hg]. intros x. apply count_char_no_char.
Qed.

(** X14. For a non-empty list of tasks whose titles and tags contain no
    newline, [format_task_table] has exactly one line per task besides the
    header and the separator: it contains [length tasks + 1] newlines. *)
Theorem format_task_table_lines tasks :
  tasks <> [] ->
  List.Forall (fun t => no_char "010" t.(title) = true /\
                   List.Forall (fun g => no_char "010" g = true) t.(tags)) tasks ->
  count_char "010" (format_task_table tasks) = S (length tasks).
Proof.
  intros Hne Hf. unfold format_task_table. destruct tasks as [|t ts]; [done|].
  cbv zeta.
  rewrite count_join_nl.
  - simpl. rewrite length_map. done.
  - constructor; [by vm_compute|]. constructor; [by vm_compute|].
    apply List.Forall_map. eapply List.Forall_impl; [|exact Hf].
    intros x [Ht Hg]. by apply count_nl_format_task_line.
Qed.

(* ------------------------------------------------------------------ *)
(** ** Witnesses of the further properties *)

Lemma parse_tags_normalised_witness :
  In "home"%string (parse_tags (Some " work , home ,"%string)) /\
  ("home"%string <> EmptyString /\ strip "home" = "home"%string /\ no_char "," "home" = true).
Proof.
  assert (H : In "home"%string (parse_tags (Some " work , home ,"%string)))
    by (vm_compute; auto).
  exact (conj H (parse_tags_normalised _ _ H)).
Defined.

Lemma parse_tags_join_witness :
  List.Forall (fun t => t <> EmptyString /\ strip t = t /\ no_char "," t = true)
    ["work"; "home"]%string /\
  parse_tags (Some (join "," ["work"; "home"]%string)) = ["work"; "home"]%string.
Proof.
  assert (H : List.Forall (fun t => t <> EmptyString /\ strip t = t /\ no_char "," t = true)
                ["work"; "home"]%string)
    by (repeat constructor; discriminate).
  exact (conj H (parse_tags_join _ H)).
Defined.

Lemma sort_tasks_order_independent_witness :
  List.NoDup (map (fun l => (read demo3.(objs) l).(id)) [0; 1]%nat) /\
  Permutation [0; 1]%nat [1; 0]%nat /\
  sort_tasks demo3.(objs) [0; 1]%nat SDue = sort_tasks demo3.(objs) [1; 0]%nat SDue.
Proof.
  assert (H1 : List.NoDup (map (fun l => (read demo3.(objs) l).(id)) [0; 1]%nat)).
  { vm_compute. repeat constructor; simpl; intuition discriminate. }
  assert (H2 : Permutation [0; 1]%nat [1; 0]%nat) by apply perm_swap.
  exact (conj H1 (conj H2 (sort_tasks_order_independent _ _ _ SDue H1 H2))).
Defined.

Lemma add_task_outcome_witness :
  reachable demo2 /\
  (add_task 5 "Write report" None (Some "high"%string) (Some "work, urgent"%string) demo2).1
    = Ok 2%nat /\
  get 3 (add_task 5 "Write report" None (Some "high"%string) (Some "work, urgent"%string) demo2).2
    = (Ok 2%nat,
       (add_task 5 "Write report" None (Some "high"%string) (Some "work, urgent"%string) demo2).2).
Proof.
  pose proof (add_task_outcome 5 "Write report" None (Some "high"%string)
                (Some "work, urgent"%string) demo2 demo2_reachable) as H.
  change (validate_title "Write report") with (Ok "Write report"%string : Result string) in H.
  change (parse_due_date None) with (Ok None : Result (option date)) in H.
  change (validate_priority (Some "high"%string)) with (Ok (Some High) : Result (option Priority)) in H.
  cbv iota beta in H.
  destruct H as (w' & Hr & _ & Hn & _ & Hg & _).
  change (length (objs demo2)) with 2%nat in Hr, Hg.
  change (next_id demo2) with 3 in Hg.
  rewrite Hr. split; [exact demo2_reachable|]. split; [reflexivity|]. exact Hg.
Defined.

Lemma update_task_errors_witness :
  update_task 1 (Some "   "%string) NotProvided NotProvided NotProvided demo2
    = (Err (InvalidInput "Title cannot be empty"), demo2) /\
  update_task 7 (Some "   "%string) NotProvided NotProvided NotProvided demo2
    = (Err (InvalidInput "Title cannot be empty"), demo2).
Proof.
  assert (H : update_task 1 (Some "   "%string) NotProvided NotProvided NotProvided demo2
                = (Err (InvalidInput "Title cannot be empty"), demo2)) by reflexivity.
  exact (conj H (proj2 (update_task_errors demo2 1 _ _ _ _ _ demo2 H) 7)).
Defined.

Lemma cli_update_fields_witness :
  dict_get 1 demo2.(tasks) = Some 0%nat /\
  (read (cmd_update 1 None None None (Some ""%string) demo2).2.(objs) 0).(tags) = [] /\
  (read (cmd_update 1 None None None (Some ""%string) demo2).2.(objs) 0).(due_date) <> None.
Proof.
  assert (Hk : dict_get 1 demo2.(tasks) = Some 0%nat) by reflexivity.
  destruct (cmd_update 1 None None None (Some ""%string) demo2) as [[out|e] w'] eqn:E;
    [|vm_compute in E; discriminate].
  destruct (cli_update_fields 1 None None None (Some ""%string) demo2 out w' 0 Hk E)
    as (Hd & _ & Hg).
  split; [exact Hk|]. split; [exact (Hg eq_refl)|].
  apply Hd. vm_compute. discriminate.
Defined.

Lemma parse_options_roundtrip_witness :
  List.Forall (fun kv => String.prefix "-" kv.2 = false)
    [("title", "Buy milk"); ("due", "2025-03-01")]%string /\
  List.NoDup (map fst [("title", "Buy milk"); ("due", "2025-03-01")]%string) /\
  sdict_get "due" (parse_options (opt_tokens [("title", "Buy milk"); ("due", "2025-03-01")]%string))
    = Some "2025-03-01"%string.
Proof.
  assert (H1 : List.Forall (fun kv => String.prefix "-" kv.2 = false)
                 [("title", "Buy milk"); ("due", "2025-03-01")]%string)
    by (repeat constructor).
  assert (H2 : List.NoDup (map fst [("title", "Buy milk"); ("due", "2025-03-01")]%string)).
  { simpl. repeat constructor; simpl; intuition discriminate. }
  split; [exact H1|]. split; [exact H2|].
  apply (proj1 (parse_options_roundtrip _ H1 H2)). simpl. auto.
Defined.

Lemma shell_delete_outcome_witness :
  int_of_str "1" = Some 1 /\
  shell_cmd_delete ["1"%string] (mkShell demo2 (String "y" (String "010" EmptyString)) [])
    = (SOk tt, mkShell (delete 1 demo2).2 EmptyString
                 [("Delete task 1 " ++ dq ++ "Soon" ++ dq ++ "? [y/N]: ")%string;
                  "Deleted task 1"%string]).
Proof.
  assert (Ha : int_of_str "1" = Some 1) by reflexivity.
  exact (conj Ha (shell_delete_outcome "1" [] 1
                    (mkShell demo2 (String "y" (String "010" EmptyString)) []) Ha)).
Defined.

Lemma int_of_str_str_int_witness :
  Z.abs (-42) < 10 ^ Z.of_nat max_str_digits /\ int_of_str (str_int (-42)) = Some (-42).
Proof.
  assert (H : Z.abs (-42) < 10 ^ Z.of_nat max_str_digits) by (vm_compute; reflexivity).
  exact (conj H (int_of_str_str_int (-42) H)).
Defined.

Lemma format_task_table_lines_witness :
  map (read demo2.(objs)) (map snd demo2.(tasks)) <> [] /\
  List.Forall (fun t => no_char "010" t.(title) = true /\
                   List.Forall (fun g => no_char "010" g = true) t.(tags))
    (map (read demo2.(objs)) (map snd demo2.(tasks))) /\
  count_char "010" (format_task_table (map (read demo2.(objs)) (map snd demo2.(tasks)))) = 3%nat.
Proof.
  assert (H1 : map (read demo2.(objs)) (map snd demo2.(tasks)) <> []) by (vm_compute; discriminate).
  assert (H2 : List.Forall (fun t => no_char "010" t.(title) = true /\
                   List.Forall (fun g => no_char "010" g = true) t.(tags))
                 (map (read demo2.(objs)) (map snd demo2.(tasks))))
    by (vm_compute; repeat constructor).
  exact (conj H1 (conj H2 (format_task_table_lines _ H1 H2))).
Defined.
